(** * A quantum random number generator: circuit builder and runner

    Shallow embedding of [circuit.py] ([build_qrng]) and [runner.py]
    ([run_qrng]).  Python integers are [Z]; Python and numpy floats are
    IEEE binary64 numbers, the kernel's [float]; a Python [dict] is an
    association list in insertion order; an exception is a value of [exn]
    carried by [result].  The quantum backend, the transpiler and the C
    library's [log2] are outside the repository and are parameters. *)

From Stdlib Require Import ZArith List Bool Lia Floats Reals Lra.
Import ListNotations.

Set Implicit Arguments.

Local Open Scope Z_scope.

(** ** Exceptions *)

(** What a [ValueError] raised on these paths complains about. *)
Inductive value_error : Type :=
| MathDomain        (* math.log2: "math domain error" *)
| NaNToInteger      (* math.ceil: "cannot convert float NaN to integer" *)
| InvalidLiteral    (* int(s, 2): "invalid literal for int() with base 2" *)
| MaxEmptySequence. (* max([]): "max() arg is an empty sequence" *)

Inductive exn : Type :=
| ValueError (why : value_error)
| OverflowError              (* math.ceil of an infinity *)
| IndexError                 (* list index out of range *)
| CircuitError               (* a register of negative size *)
| BackendError (code : Z).   (* whatever the backend's job raises *)

Inductive result (A : Type) : Type :=
| Ok (a : A)
| Err (e : exn).

Arguments Ok {A} a.
Arguments Err {A} e.

Definition bind {A B : Type} (r : result A) (k : A -> result B) : result B :=
  match r with
  | Ok a => k a
  | Err e => Err e
  end.

(** ** Python dictionaries

    A [dict] keeps its items in insertion order; assigning to a key that is
    already present replaces the value and keeps the key's position. *)

Section Dict.
Variables K V : Type.
Variable eqb : K -> K -> bool.

Definition dict : Type := list (K * V).

Fixpoint dict_set (d : dict) (k : K) (v : V) : dict :=
  match d with
  | [] => [(k, v)]
  | (k', v') :: d' =>
      if eqb k' k then (k', v) :: d' else (k', v') :: dict_set d' k v
  end.

(** [d[k] = v] for each item in turn. *)
Definition dict_update (d : dict) (items : list (K * V)) : dict :=
  fold_left (fun d kv => dict_set d (fst kv) (snd kv)) items d.

(** [{k: v for k, v in items}] *)
Definition dict_of_items (items : list (K * V)) : dict :=
  dict_update [] items.

Definition keys (d : dict) : list K := map fst d.
Definition values (d : dict) : list V := map snd d.
End Dict.

(** ** Bit patterns

    The keys of the backend's counts are strings over the digits 0 and 1,
    here lists of bits, most significant first. *)

Definition bitstring : Type := list bool.

Definition bit_value (b : bool) : Z := if b then 1 else 0.

(** [int(bitstring, 2)]: the empty string is not a literal. *)
Definition int_base2 (s : bitstring) : result Z :=
  match s with
  | [] => Err (ValueError InvalidLiteral)
  | _ => Ok (fold_left (fun acc b => 2 * acc + bit_value b) s 0)
  end.

(** ** Binary64 numbers *)

(** An integer as a binary64 number, rounded to nearest, ties to even (the
    conversion of [PyLong_AsDouble] and of numpy's cast from int64);
    infinite from 2^1024 - 2^970 on. *)
Definition Z2F (z : Z) : float :=
  SF2Prim (binary_normalize prec emax z 0 false).

(** The least integer not below a finite [x]. *)
Definition ceil_finite (x : float) : Z :=
  match Prim2SF x with
  | S754_finite s m e =>
      let n := if s then Z.neg m else Z.pos m in
      if 0 <=? e then n * 2 ^ e else - ((- n) / 2 ^ (- e))
  | _ => 0
  end.

(** [math.ceil(x)] on a float. *)
Definition math_ceil (x : float) : result Z :=
  if is_nan x then Err (ValueError NaNToInteger)
  else if is_infinity x then Err OverflowError
  else Ok (ceil_finite x).

(** [_PyLong_Frexp]: [n] as [x * 2^e] with [0.5 <= x < 1], [x] rounded to
    nearest, ties to even. *)
Definition PyLong_Frexp (n : Z) : float * Z :=
  let e := Z.log2 n + 1 in
  let x := SF2Prim (binary_normalize prec emax n (- e) false) in
  if (x =? 1)%float then (0.5%float, e + 1) else (x, e).

(** ** circuit.py *)

Inductive instruction : Type :=
| H (q : nat)
| Measure (q c : nat).

Record QuantumCircuit : Type := {
  num_qubits : Z;
  num_clbits : Z;
  data : list instruction
}.

Section Circuit.
(** The C library's [log2] on doubles. *)
Variable libm_log2 : float -> float.

(** [math.log2(n)] on a Python int ([loghelper] in CPython): a
    [ValueError] unless [n] is positive; the logarithm of [n] as a double,
    or, when [n] is too large for a double, of its fraction plus its
    exponent. *)
Definition math_log2 (n : Z) : result float :=
  if n <=? 0 then Err (ValueError MathDomain)
  else
    let x := Z2F n in
    if is_infinity x then
      let '(x, e) := PyLong_Frexp n in
      Ok (libm_log2 x + libm_log2 2 * Z2F e)%float
    else Ok (libm_log2 x).

(** [QuantumCircuit(n, m)] *)
Definition new_circuit (n m : Z) : result QuantumCircuit :=
  if (n <? 0) || (m <? 0) then Err CircuitError
  else Ok {| num_qubits := n; num_clbits := m; data := [] |}.

Definition append (qc : QuantumCircuit) (ops : list instruction)
  : QuantumCircuit :=
  {| num_qubits := num_qubits qc;
     num_clbits := num_clbits qc;
     data := data qc ++ ops |}.

(** [range(n)] *)
Definition range (n : Z) : list nat := seq 0 (Z.to_nat n).

Definition build_qrng (num_outcomes : Z) : result (QuantumCircuit * Z) :=
  bind (math_log2 num_outcomes) (fun l =>
  bind (math_ceil l) (fun num_qubits =>
  bind (new_circuit num_qubits num_qubits) (fun qc =>
  let qc := fold_left (fun qc q => append qc [H q]) (range num_qubits) qc in
  let qc := append qc (map (fun q => Measure q q) (range num_qubits)) in
  Ok (qc, num_qubits)))).
End Circuit.

(** ** numpy on a list of integers

    [np.mean], [np.std] and [round] only add, subtract, multiply, divide,
    take square roots and round to an integer.  They are written once over
    an arithmetic, and read at binary64 (what the program computes) and at
    the real numbers (what it approximates). *)

Record Arith : Type := {
  num : Type;
  of_int : Z -> num;
  add : num -> num -> num;
  sub : num -> num -> num;
  mul : num -> num -> num;
  div : num -> num -> num;
  sqrt : num -> num;
  rint : num -> num   (* to the nearest integer, ties to even *)
}.

Section Numpy.
Variable A : Arith.

Let zero : num A := of_int A 0.

(** Eight running sums, each fed every eighth element. *)
Fixpoint add_blocks (fuel : nat) (r a : list (num A)) : list (num A) :=
  match fuel, a with
  | S fuel, _ :: _ =>
      add_blocks fuel
        (map (fun p => add A (fst p) (snd p)) (combine r (firstn 8 a)))
        (skipn 8 a)
  | _, _ => r
  end.

(** numpy's pairwise summation of [a]: in order below eight elements, on
    eight running sums up to 128, and by halves beyond.  (numpy starts the
    running sum at -0.0; no element here is -0.0, so +0.0 gives the same
    value.) *)
Fixpoint pairwise_sum (fuel : nat) (a : list (num A)) : num A :=
  let n := length a in
  if (n <? 8)%nat then fold_left (add A) a zero
  else if (n <=? 128)%nat then
    let full := (n - n mod 8)%nat in
    let r := add_blocks n (firstn 8 a) (skipn 8 (firstn full a)) in
    let r i := nth i r zero in
    let res :=
      add A (add A (add A (r 0%nat) (r 1%nat)) (add A (r 2%nat) (r 3%nat)))
            (add A (add A (r 4%nat) (r 5%nat)) (add A (r 6%nat) (r 7%nat)))
    in
    fold_left (add A) (skipn full a) res
  else
    match fuel with
    | O => zero
    | S fuel =>
        let n2 := (n / 2)%nat in
        let n2 := (n2 - n2 mod 8)%nat in
        add A (pairwise_sum fuel (firstn n2 a))
              (pairwise_sum fuel (skipn n2 a))
    end.

(** [np.add.reduce]: the identity plus the pairwise sum. *)
Definition add_reduce (a : list (num A)) : num A :=
  add A zero (pairwise_sum (length a) a).

Definition count (a : list Z) : num A := of_int A (Z.of_nat (length a)).

(** [np.mean(a)] *)
Definition np_mean (a : list Z) : num A :=
  div A (add_reduce (map (of_int A) a)) (count a).

(** [np.std(a)], with numpy's default [ddof = 0]. *)
Definition np_std (a : list Z) : num A :=
  let arrmean := div A (add_reduce (map (of_int A) a)) (count a) in
  let x := map (fun v => sub A (of_int A v) arrmean) a in
  let x := map (fun v => mul A v v) x in
  let ret := div A (add_reduce x) (count a) in
  sqrt A ret.

(** [round(x, 9)] on a numpy float: scale by 10^9, round to an integer,
    scale back. *)
Definition round9 (x : num A) : num A :=
  let p := of_int A (10 ^ 9) in
  div A (rint A (mul A x p)) p.

(** Line 103 of runner.py. *)
Definition std_norm_of (occurrences : list Z) : num A :=
  round9 (div A (np_std occurrences) (np_mean occurrences)).
End Numpy.

(** Binary64: the arithmetic of the program. *)

Definition two52 : float := Z2F (2 ^ 52).

(** [rint] in the default rounding mode. *)
Definition rint64 (x : float) : float :=
  if (abs x <? two52)%float then
    if (x <? 0)%float then (- ((two52 - x) - two52))%float
    else ((x + two52) - two52)%float
  else x.

Definition binary64 : Arith := {|
  num := float;
  of_int := Z2F;
  add := PrimFloat.add;
  sub := PrimFloat.sub;
  mul := PrimFloat.mul;
  div := PrimFloat.div;
  sqrt := PrimFloat.sqrt;
  rint := rint64
|}.

(** The real numbers: exact arithmetic. *)

Definition rintR (x : R) : R :=
  let f := Zfloor x in
  let d := (x - IZR f)%R in
  if Rlt_dec d (1 / 2) then IZR f
  else if Rlt_dec (1 / 2) d then IZR (f + 1)
  else if Z.even f then IZR f else IZR (f + 1).

Definition exact : Arith := {|
  num := R;
  of_int := IZR;
  add := Rplus;
  sub := Rminus;
  mul := Rmult;
  div := Rdiv;
  sqrt := R_sqrt.sqrt;
  rint := rintR
|}.

(** ** runner.py *)

(** A job handed to the backend: the circuit and the number of shots. *)
Definition job : Type := (QuantumCircuit * Z)%type.

(** A computation that may raise, together with the jobs it has run. *)
Definition run (A : Type) : Type := (list job * result A)%type.

Definition ret {A : Type} (a : A) : run A := ([], Ok a).

Definition lift {A : Type} (r : result A) : run A := ([], r).

Definition and_then {A B : Type} (m : run A) (k : A -> run B) : run B :=
  match m with
  | (jobs, Ok a) => let '(jobs', r) := k a in (jobs ++ jobs', r)
  | (jobs, Err e) => (jobs, Err e)
  end.

Notation "x <- m ;; k" := (and_then m (fun x => k))
  (at level 61, m at next level, right associativity).
Notation "' p <- m ;; k" := (and_then m (fun x => let p := x in k))
  (at level 61, p pattern, m at next level, right associativity).

(** [{int(bitstring, 2): occurrence for bitstring, occurrence in
    counts_binary.items()}]: the first key that is not a literal raises. *)
Fixpoint int_items (items : list (bitstring * Z)) : result (list (Z * Z)) :=
  match items with
  | [] => Ok []
  | (bitstring, occurrence) :: items =>
      bind (int_base2 bitstring) (fun outcome =>
      bind (int_items items) (fun rest =>
      Ok ((outcome, occurrence) :: rest)))
  end.

Definition to_counts_int (counts_binary : dict bitstring Z)
  : result (dict Z Z) :=
  bind (int_items counts_binary) (fun items =>
  Ok (dict_of_items Z.eqb items)).

(** [{outcome: occurrence for outcome, occurrence in counts_int.items()
    if outcome < num_outcomes}] *)
Definition valid_counts_of (num_outcomes : Z) (counts_int : dict Z Z)
  : dict Z Z :=
  dict_of_items Z.eqb
    (filter (fun item => fst item <? num_outcomes) counts_int).

(** [max(l)] *)
Definition py_max (l : list Z) : result Z :=
  match l with
  | [] => Err (ValueError MaxEmptySequence)
  | x :: l => Ok (fold_left Z.max l x)
  end.

(** [enumerate(l)] *)
Definition enumerate {A : Type} (l : list A) : list (nat * A) :=
  combine (seq 0 (length l)) l.

(** [[index for index, occ in enumerate(valid_occurrences)
    if occ == max_occurrence]] *)
Definition max_indices_of (valid_occurrences : list Z) (max_occurrence : Z)
  : list nat :=
  map fst (filter (fun p => snd p =? max_occurrence)
                  (enumerate valid_occurrences)).

(** [l[i]] *)
Definition index {A : Type} (l : list A) (i : nat) : result A :=
  match nth_error l i with
  | Some a => Ok a
  | None => Err IndexError
  end.

Section Runner.
Variable libm_log2 : float -> float.

(** The pass manager's [run]: the transpiled circuit. *)
Variable pm_run : QuantumCircuit -> QuantumCircuit.

(** The counts of the [i]-th job the runner is given ([runner.run], then
    [result()] and [get_counts()]), for either kind of backend. *)
Variable get_counts : nat -> QuantumCircuit -> Z -> result (dict bitstring Z).

Definition runner_run (i : nat) (qc : QuantumCircuit) (shots : Z)
  : run (dict bitstring Z) :=
  ([(qc, shots)], get_counts i qc shots).

Definition run_qrng (num_outcomes shots : Z) : run (Z * float) :=
  '(qc, num_qubits) <- lift (build_qrng libm_log2 num_outcomes) ;;
  let transpiled_qc := pm_run qc in
  counts_binary <- runner_run 0 transpiled_qc shots ;;
  counts_int <- lift (to_counts_int counts_binary) ;;
  let occurrences := values counts_int in
  let std_norm := std_norm_of binary64 occurrences in
  let valid_counts := valid_counts_of num_outcomes counts_int in
  let valid_outcomes := keys valid_counts in
  let valid_occurrences := values valid_counts in
  max_occurrence <- lift (py_max valid_occurrences) ;;
  let max_indices := max_indices_of valid_occurrences max_occurrence in
  if (1 <? length max_indices)%nat then
    count <- runner_run 1 transpiled_qc 1 ;;
    random_num <- lift (index (keys count) 0) ;;
    random_num <- lift (int_base2 random_num) ;;
    ret (random_num, std_norm)
  else
    i <- lift (index max_indices 0) ;;
    random_num <- lift (index valid_outcomes i) ;;
    ret (random_num, std_norm).
End Runner.

(** ** The specification's vocabulary *)

(** A bit pattern read as a big-endian binary number. *)
Fixpoint big_endian_value (s : bitstring) : Z :=
  match s with
  | [] => 0
  | b :: s => bit_value b * 2 ^ Z.of_nat (length s) + big_endian_value s
  end.

(** The number of qubits the specification asks for, [ceil(log2(n))]. *)
Definition ceil_log2 (n : Z) : Z := Z.log2_up n.

(** The circuit the specification describes: every qubit put in equal
    superposition, then every qubit measured into its own classical bit. *)
Definition uniform_circuit (num_qubits : Z) : QuantumCircuit :=
  {| num_qubits := num_qubits;
     num_clbits := num_qubits;
     data := map H (range num_qubits)
             ++ map (fun q => Measure q q) (range num_qubits) |}.

(** The in-range outcomes whose count is the maximum (the candidate set). *)
Definition candidates (valid_counts : dict Z Z) (max_occurrence : Z)
  : dict Z Z :=
  filter (fun item => snd item =? max_occurrence) valid_counts.

Section Spread.
Variable A : Arith.

Definition total (xs : list (num A)) : num A := add_reduce A xs.

Definition mean (counts : list Z) : num A :=
  div A (total (map (of_int A) counts)) (count A counts).

(** The squared deviations from the mean, averaged over all [N] counts
    (not over [N - 1]). *)
Definition population_variance (counts : list Z) : num A :=
  div A
    (total (map (fun c => let d := sub A (of_int A c) (mean counts) in
                          mul A d d) counts))
    (count A counts).

Definition population_std (counts : list Z) : num A :=
  sqrt A (population_variance counts).

(** Population standard deviation over mean, to nine decimal places. *)
Definition normalized_spread (counts : list Z) : num A :=
  round9 A (div A (population_std counts) (mean counts)).
End Spread.

(** The integer counts the first job of [run_qrng] yields. *)
Definition first_counts_int (libm_log2 : float -> float)
  (pm_run : QuantumCircuit -> QuantumCircuit)
  (get_counts : nat -> QuantumCircuit -> Z -> result (dict bitstring Z))
  (num_outcomes shots : Z) : result (dict Z Z) :=
  bind (build_qrng libm_log2 num_outcomes) (fun built =>
  bind (get_counts O (pm_run (fst built)) shots) to_counts_int).

(** Neither a number nor finite. *)
Definition not_finite (x : float) : bool := is_nan x || is_infinity x.

(** The plain sum of a list of reals. *)
Definition Rsum (a : list R) : R := fold_right Rplus 0%R a.

(** ** Test doubles *)

(** A stand-in for the C library's [log2]: exact on the powers of two, the
    chord between them elsewhere. *)
Definition log2_chord (x : float) : float :=
  let '(m, e) := frshiftexp x in
  (Z2F (Uint63.to_Z e - FloatOps.shift - 1) + (2 * m - 1))%float.

(** A pass manager that leaves the circuit as it is. *)
Definition pm_id (qc : QuantumCircuit) : QuantumCircuit := qc.

(** A backend that answers the first job with [main] and any later job
    with [single]. *)
Definition mock_counts (main single : dict bitstring Z)
  (i : nat) (qc : QuantumCircuit) (shots : Z) : result (dict bitstring Z) :=
  match i with
  | O => Ok main
  | S _ => Ok single
  end.

(** The [w]-bit pattern of [n]. *)
Definition bits (w : nat) (n : Z) : bitstring :=
  map (fun i => Z.testbit n (Z.of_nat (w - 1 - i))) (seq 0 w).

(** Measured counts used as examples. *)

(** One outcome ahead of the others. *)
Definition counts_clear : dict bitstring Z :=
  [(bits 2 0, 40); (bits 2 1, 10); (bits 2 2, 10); (bits 2 3, 10)].

(** Outcomes 0 and 1 tied, for a caller who asked for three outcomes. *)
Definition counts_tied : dict bitstring Z :=
  [(bits 2 0, 1); (bits 2 1, 1)].

(** Only the pattern 11 was seen. *)
Definition counts_eleven : dict bitstring Z := [(bits 2 3, 1)].

(** Two patterns, neither of them ever counted. *)
Definition counts_zero : dict bitstring Z := [(bits 1 0, 0); (bits 1 1, 0)].

(** One outcome three counts ahead of four others, and the same five times
    over. *)
Definition occurrences_near_tie : list Z := [412; 409; 409; 409; 409].

(** Those counts, [k] times over, for the outcomes 0 to 4 on three qubits. *)
Definition counts_near_tie (k : Z) : dict bitstring Z :=
  combine (map (bits 3) [0; 1; 2; 3; 4]) (map (Z.mul k) occurrences_near_tie).

(** * Properties *)

(** ** Dictionaries *)

Section DictFacts.
Variables K V : Type.

Lemma NoDup_keys_filter (f : K * V -> bool) (d : dict K V) :
  NoDup (keys d) -> NoDup (keys (filter f d)).
Proof.
  induction d as [|kv d IH]; simpl; intros Hd; [constructor|].
  inversion Hd as [|? ? Hk Hd']; subst.
  destruct (f kv); simpl; [|apply IH; assumption].
  constructor; [|apply IH; assumption].
  intros Hin. apply Hk. unfold keys in Hin |- *.
  apply in_map_iff in Hin. destruct Hin as [x [Hx Hin]].
  apply filter_In in Hin. apply in_map_iff. exists x. tauto.
Qed.

Variable eqb : K -> K -> bool.
Hypothesis eqb_eq : forall a b, eqb a b = true <-> a = b.

Lemma dict_set_fresh (d : dict K V) k v :
  ~ In k (keys d) -> dict_set eqb d k v = d ++ [(k, v)].
Proof.
  induction d as [|[k' v'] d IH]; simpl; intros Hk; [reflexivity|].
  destruct (eqb k' k) eqn:E.
  - apply eqb_eq in E. tauto.
  - rewrite IH by tauto. reflexivity.
Qed.

Lemma keys_dict_set (d : dict K V) k v k' :
  In k' (keys (dict_set eqb d k v)) <-> In k' (keys d) \/ k' = k.
Proof.
  induction d as [|[k0 v0] d IH]; simpl.
  - intuition.
  - destruct (eqb k0 k) eqn:E; simpl.
    + apply eqb_eq in E. subst. intuition.
    + rewrite IH. intuition.
Qed.

Lemma NoDup_dict_set (d : dict K V) k v :
  NoDup (keys d) -> NoDup (keys (dict_set eqb d k v)).
Proof.
  induction d as [|[k0 v0] d IH]; simpl; intros Hd.
  - constructor; [intros []|constructor].
  - inversion Hd as [|? ? Hk0 Hd']; subst.
    destruct (eqb k0 k) eqn:E; simpl.
    + constructor; assumption.
    + constructor; [|apply IH; assumption].
      rewrite keys_dict_set. intros [Hin|Heq]; [tauto|].
      subst. assert (eqb k k = true) as Hkk by (apply eqb_eq; reflexivity).
      congruence.
Qed.

Lemma dict_update_cons (d : dict K V) k v items :
  dict_update eqb d ((k, v) :: items)
  = dict_update eqb (dict_set eqb d k v) items.
Proof. reflexivity. Qed.

Lemma dict_update_keys items (acc : dict K V) :
  NoDup (keys acc) ->
  NoDup (keys (dict_update eqb acc items)) /\
  forall k, In k (keys (dict_update eqb acc items)) <->
            In k (keys acc) \/ In k (keys items).
Proof.
  revert acc. induction items as [|[k v] items IH]; intros acc Hacc.
  - split; [assumption|]. simpl. intuition.
  - rewrite dict_update_cons.
    destruct (IH (dict_set eqb acc k v)) as [Hnd Hin].
    { apply NoDup_dict_set. assumption. }
    split; [assumption|]. intros k'. rewrite Hin.
    rewrite keys_dict_set. simpl. intuition.
Qed.

Lemma NoDup_keys_dict_of_items (items : list (K * V)) :
  NoDup (keys (dict_of_items eqb items)).
Proof. apply dict_update_keys. constructor. Qed.

Lemma keys_dict_of_items (items : list (K * V)) k :
  In k (keys (dict_of_items eqb items)) <-> In k (keys items).
Proof.
  unfold dict_of_items.
  destruct (@dict_update_keys items []) as [_ Hin]; [constructor|].
  rewrite Hin. simpl. intuition.
Qed.

Lemma dict_update_nodup items (acc : dict K V) :
  NoDup (keys acc ++ keys items) -> dict_update eqb acc items = acc ++ items.
Proof.
  revert acc. induction items as [|[k v] items IH]; intros acc Hnd.
  - simpl. rewrite app_nil_r. reflexivity.
  - rewrite dict_update_cons.
    assert (dict_set eqb acc k v = acc ++ [(k, v)]) as Hstep.
    { apply dict_set_fresh. simpl in Hnd.
      apply NoDup_remove_2 in Hnd. intros Hin. apply Hnd.
      apply in_or_app. left. assumption. }
    rewrite Hstep, IH.
    + rewrite <- app_assoc. reflexivity.
    + unfold keys in Hnd |- *. rewrite map_app, <- app_assoc. exact Hnd.
Qed.

(** A comprehension over items with distinct keys is those items. *)
Lemma dict_of_items_nodup (items : list (K * V)) :
  NoDup (keys items) -> dict_of_items eqb items = items.
Proof.
  intros Hnd. unfold dict_of_items.
  rewrite dict_update_nodup; [reflexivity|exact Hnd].
Qed.

End DictFacts.

(** ** Bit patterns as integers *)

Lemma big_endian_value_nonneg (s : bitstring) : 0 <= big_endian_value s.
Proof.
  induction s as [|b s IH]; simpl; [lia|].
  assert (0 <= bit_value b) by (destruct b; simpl; lia).
  assert (0 <= 2 ^ Z.of_nat (length s)) by (apply Z.pow_nonneg; lia).
  nia.
Qed.

Lemma fold_base2 (s : bitstring) (acc : Z) :
  fold_left (fun acc b => 2 * acc + bit_value b) s acc
  = acc * 2 ^ Z.of_nat (length s) + big_endian_value s.
Proof.
  revert acc. induction s as [|b s IH]; intros acc.
  - simpl. lia.
  - cbn [fold_left big_endian_value length]. rewrite IH.
    rewrite Nat2Z.inj_succ, Z.pow_succ_r by lia. ring.
Qed.

(** [int(s, 2)] reads a non-empty [s] most significant bit first. *)
Lemma int_base2_big_endian (s : bitstring) :
  s <> [] -> int_base2 s = Ok (big_endian_value s).
Proof.
  destruct s as [|b s]; [congruence|]. intros _.
  unfold int_base2. rewrite fold_base2. reflexivity.
Qed.

Lemma int_base2_nonneg (s : bitstring) (z : Z) :
  int_base2 s = Ok z -> 0 <= z.
Proof.
  destruct s as [|b s]; [discriminate|].
  rewrite int_base2_big_endian by discriminate.
  intros E. injection E as <-. apply (big_endian_value_nonneg (b :: s)).
Qed.

Lemma int_items_nonneg (items : list (bitstring * Z)) (l : list (Z * Z)) :
  int_items items = Ok l -> forall k, In k (keys l) -> 0 <= k.
Proof.
  revert l. induction items as [|[s occ] items IH]; simpl; intros l E.
  - injection E as <-. intros k [].
  - destruct (int_base2 s) as [z|] eqn:Ez; [|discriminate]. simpl in E.
    destruct (int_items items) as [rest|]; [|discriminate]. simpl in E.
    injection E as <-. intros k [Hk|Hk].
    + simpl in Hk. subst. eapply int_base2_nonneg; eassumption.
    + eapply IH; [reflexivity|assumption].
Qed.

(** The integer counts have distinct, non-negative keys. *)
Lemma to_counts_int_keys (counts_binary : dict bitstring Z)
  (counts_int : dict Z Z) :
  to_counts_int counts_binary = Ok counts_int ->
  NoDup (keys counts_int) /\ forall k, In k (keys counts_int) -> 0 <= k.
Proof.
  unfold to_counts_int. intros E.
  destruct (int_items counts_binary) as [items|] eqn:Ei; [|discriminate].
  simpl in E. injection E as <-. split.
  - apply (@NoDup_keys_dict_of_items _ _ _ Z.eqb_eq).
  - intros k Hk.
    apply (proj1 (@keys_dict_of_items _ _ _ Z.eqb_eq items k)) in Hk.
    exact (int_items_nonneg _ Ei k Hk).
Qed.

(** ** The valid subset *)

(** C4: the valid subset is the integer counts restricted to the keys
    below [num_outcomes], that is, to the keys in [0, num_outcomes - 1]:
    the same items, in the same order, and nothing else. *)
Theorem valid_counts_is_restriction
  (num_outcomes : Z) (counts_binary : dict bitstring Z)
  (counts_int : dict Z Z) :
  to_counts_int counts_binary = Ok counts_int ->
  valid_counts_of num_outcomes counts_int
  = filter (fun item => fst item <? num_outcomes) counts_int
  /\ forall outcome occurrence,
       In (outcome, occurrence) (valid_counts_of num_outcomes counts_int) <->
       In (outcome, occurrence) counts_int /\ 0 <= outcome < num_outcomes.
Proof.
  intros E. destruct (to_counts_int_keys _ E) as [Hnd Hpos].
  assert (valid_counts_of num_outcomes counts_int
          = filter (fun item => fst item <? num_outcomes) counts_int) as Hv.
  { unfold valid_counts_of. apply (@dict_of_items_nodup _ _ _ Z.eqb_eq).
    apply NoDup_keys_filter. exact Hnd. }
  split; [exact Hv|]. intros k v. rewrite Hv, filter_In. simpl.
  rewrite Z.ltb_lt. split.
  - intros [Hin Hlt]. repeat split; try assumption.
    apply Hpos. unfold keys. apply in_map_iff. exists (k, v). tauto.
  - tauto.
Qed.

(** For five outcomes on three qubits, the measured 5, 6 and 7 are left
    out. *)
Lemma valid_counts_is_restriction_witness :
  let counts_binary := map (fun n => (bits 3 n, n + 1)) [0; 1; 2; 3; 4; 5; 6; 7] in
  let counts_int := map (fun n => (n, n + 1)) [0; 1; 2; 3; 4; 5; 6; 7] in
  to_counts_int counts_binary = Ok counts_int
  /\ keys (valid_counts_of 5 counts_int) = [0; 1; 2; 3; 4]
  /\ (valid_counts_of 5 counts_int
      = filter (fun item => fst item <? 5) counts_int
      /\ forall outcome occurrence,
           In (outcome, occurrence) (valid_counts_of 5 counts_int) <->
           In (outcome, occurrence) counts_int /\ 0 <= outcome < 5).
Proof.
  split; [reflexivity|]. split; [reflexivity|].
  exact (@valid_counts_is_restriction 5
           (map (fun n => (bits 3 n, n + 1)) [0; 1; 2; 3; 4; 5; 6; 7])
           (map (fun n => (n, n + 1)) [0; 1; 2; 3; 4; 5; 6; 7]) eq_refl).
Defined.

(** ** The circuit builder *)

Lemma math_log2_nonpositive (libm_log2 : float -> float) (n : Z) :
  n <= 0 -> math_log2 libm_log2 n = Err (ValueError MathDomain).
Proof.
  intros Hn. unfold math_log2.
  destruct (n <=? 0) eqn:E; [reflexivity|]. apply Z.leb_gt in E. lia.
Qed.

Lemma math_log2_positive (libm_log2 : float -> float) (n : Z) :
  1 <= n -> exists l, math_log2 libm_log2 n = Ok l.
Proof.
  intros Hn. unfold math_log2.
  destruct (n <=? 0) eqn:E; [apply Z.leb_le in E; lia|].
  destruct (is_infinity (Z2F n)); [|eexists; reflexivity].
  destruct (PyLong_Frexp n). eexists; reflexivity.
Qed.

Lemma ceil_finite_nonneg (l : float) :
  (0 <=? l)%float = true -> 0 <= ceil_finite l.
Proof.
  rewrite leb_spec. unfold ceil_finite.
  change (Prim2SF 0) with (S754_zero false).
  destruct (Prim2SF l) as [s| s | |s m e]; try lia.
  unfold SFleb, SFcompare. destruct s; [discriminate|]. intros _.
  destruct (0 <=? e) eqn:E.
  - apply Z.leb_le in E. assert (0 < 2 ^ e) by (apply Z.pow_pos_nonneg; lia).
    nia.
  - apply Z.leb_gt in E. assert (0 < 2 ^ (- e)) by (apply Z.pow_pos_nonneg; lia).
    assert (- Z.pos m / 2 ^ (- e) < 0) by (apply Z.div_lt_upper_bound; lia).
    lia.
Qed.

(** The two roundings that lose the extra outcome: [2^53 + 1] is halfway
    between two doubles and goes to the even one. *)
Lemma Z2F_2p53_plus_1 : Z2F (2 ^ 53 + 1) = Z2F (2 ^ 53).
Proof. vm_compute. reflexivity. Qed.

(** C1, at [2^53 + 1]: whatever the C library's [log2] returns, the builder
    cannot tell [2^53 + 1] outcomes from [2^53], although the first needs 54
    qubits and the second 53. *)
Theorem build_qrng_2p53_plus_1 (libm_log2 : float -> float) :
  build_qrng libm_log2 (2 ^ 53 + 1) = build_qrng libm_log2 (2 ^ 53)
  /\ ceil_log2 (2 ^ 53 + 1) = 54
  /\ ceil_log2 (2 ^ 53) = 53.
Proof.
  split; [|split; reflexivity].
  unfold build_qrng, math_log2.
  change (2 ^ 53 + 1 <=? 0) with false.
  change (2 ^ 53 <=? 0) with false.
  cbv iota. rewrite Z2F_2p53_plus_1. reflexivity.
Qed.

(** With a [log2] that is exact at [2^53], that common answer is 53. *)
Lemma qubits_for_2p53_plus_1 (libm_log2 : float -> float) :
  libm_log2 (Z2F (2 ^ 53)) = Z2F 53 ->
  exists qc, build_qrng libm_log2 (2 ^ 53 + 1) = Ok (qc, 53).
Proof.
  intros Hlog. unfold build_qrng, math_log2.
  change (2 ^ 53 + 1 <=? 0) with false. cbv iota.
  rewrite Z2F_2p53_plus_1.
  change (is_infinity (Z2F (2 ^ 53))) with false. cbv iota zeta.
  rewrite Hlog. eexists. vm_compute. reflexivity.
Qed.

(** C7: the builder fails with the [ValueError] of [math.log2], its
    invalid-argument failure, exactly when [num_outcomes <= 0]; from 1 on
    it returns a circuit, the C library's logarithm being finite and not
    negative there. *)
Theorem build_qrng_fails_iff_nonpositive
  (libm_log2 : float -> float) (num_outcomes : Z) :
  (forall l, math_log2 libm_log2 num_outcomes = Ok l ->
             PrimFloat.is_finite l = true /\ (0 <=? l)%float = true) ->
  (build_qrng libm_log2 num_outcomes = Err (ValueError MathDomain)
   <-> num_outcomes <= 0)
  /\ (1 <= num_outcomes ->
      exists qc num_qubits,
        build_qrng libm_log2 num_outcomes = Ok (qc, num_qubits)).
Proof.
  intros Hlibm.
  assert (1 <= num_outcomes ->
          exists qc num_qubits,
            build_qrng libm_log2 num_outcomes = Ok (qc, num_qubits)) as Hok.
  { intros Hn. destruct (math_log2_positive libm_log2 Hn) as [l Hl].
    destruct (Hlibm l Hl) as [Hfin Hpos].
    unfold PrimFloat.is_finite in Hfin.
    apply negb_true_iff, orb_false_iff in Hfin. destruct Hfin as [Hnan Hinf].
    unfold build_qrng. rewrite Hl. simpl.
    unfold math_ceil. rewrite Hnan, Hinf. simpl.
    pose proof (@ceil_finite_nonneg l Hpos) as Hq.
    unfold new_circuit.
    assert ((ceil_finite l <? 0) = false) as -> by (apply Z.ltb_ge; exact Hq).
    simpl. eexists. eexists. reflexivity. }
  split; [|exact Hok]. split.
  - intros Herr. destruct (Z_le_gt_dec num_outcomes 0) as [|Hgt]; [assumption|].
    destruct Hok as [qc [q Hq]]; [lia|]. congruence.
  - intros Hn. unfold build_qrng.
    rewrite math_log2_nonpositive by assumption. reflexivity.
Qed.

Lemma build_qrng_fails_iff_nonpositive_witness :
  (build_qrng log2_chord 4 = Err (ValueError MathDomain) <-> 4 <= 0)
  /\ (1 <= 4 ->
      exists qc num_qubits, build_qrng log2_chord 4 = Ok (qc, num_qubits)).
Proof.
  apply (@build_qrng_fails_iff_nonpositive log2_chord 4).
  intros l Hl. vm_compute in Hl. injection Hl as <-.
  split; vm_compute; reflexivity.
Defined.

(** ** Maximum and candidates *)

Lemma fold_max_spec (l : list Z) (x : Z) :
  (fold_left Z.max l x = x \/ In (fold_left Z.max l x) l)
  /\ x <= fold_left Z.max l x
  /\ forall y, In y l -> y <= fold_left Z.max l x.
Proof.
  revert x. induction l as [|a l IH]; simpl; intros x.
  - split; [left; reflexivity|]. split; [lia|]. intros y [].
  - destruct (IH (Z.max x a)) as [Hin [Hle Hall]].
    split; [|split].
    + destruct Hin as [E|Hin]; [|right; right; exact Hin].
      rewrite E. destruct (Z.max_spec x a) as [[_ ->]|[_ ->]]; auto.
    + lia.
    + intros y [<-|Hy]; [lia|]. apply Hall. exact Hy.
Qed.

(** [max] returns an element that no element exceeds. *)
Lemma py_max_spec (l : list Z) (m : Z) :
  py_max l = Ok m -> In m l /\ forall y, In y l -> y <= m.
Proof.
  destruct l as [|x l]; [discriminate|]. simpl. intros E. injection E as <-.
  destruct (fold_max_spec l x) as [Hin [Hle Hall]]. split.
  - destruct Hin as [->|Hin]; [left; reflexivity|right; exact Hin].
  - intros y [<-|Hy]; [exact Hle|apply Hall; exact Hy].
Qed.

(** The indices kept by the list comprehension are, in order, the positions
    of the candidates. *)
Lemma max_indices_positions (d : dict Z Z) (m : Z) (s : nat) :
  Forall2
    (fun i item =>
       (s <= i)%nat /\ nth_error (keys d) (i - s) = Some (fst item))
    (map fst (filter (fun p => snd p =? m)
                     (combine (seq s (length (values d))) (values d))))
    (candidates d m).
Proof.
  revert s. induction d as [|[k v] d IH]; intros s; [constructor|].
  cbn [values keys map length seq combine filter candidates snd fst].
  assert (Forall2
            (fun i item =>
               (s <= i)%nat
               /\ nth_error (k :: keys d) (i - s) = Some (fst item))
            (map fst (filter (fun p => snd p =? m)
                        (combine (seq (S s) (length (values d))) (values d))))
            (candidates d m)) as Htail.
  { eapply Forall2_impl; [|apply (IH (S s))].
    intros i item [Hle Hnth]. split; [lia|].
    replace (i - s)%nat with (S (i - S s)) by lia. exact Hnth. }
  destruct (v =? m); [|exact Htail].
  cbn [map fst]. constructor; [|exact Htail].
  split; [lia|]. rewrite Nat.sub_diag. reflexivity.
Qed.

Lemma max_indices_length (d : dict Z Z) (m : Z) :
  length (max_indices_of (values d) m) = length (candidates d m).
Proof.
  eapply Forall2_length. apply (max_indices_positions d m 0).
Qed.

Lemma max_indices_single (d : dict Z Z) (m k v : Z) :
  candidates d m = [(k, v)] ->
  exists i, max_indices_of (values d) m = [i]
            /\ nth_error (keys d) i = Some k.
Proof.
  intros Hc. pose proof (max_indices_positions d m 0) as HF.
  rewrite Hc in HF. inversion HF as [|i item ixs items [_ Hi] Hrest Eixs Eitems].
  inversion Hrest; subst. exists i. split.
  - unfold max_indices_of, enumerate. symmetry. assumption.
  - rewrite Nat.sub_0_r in Hi. exact Hi.
Qed.

(** ** The circuit that is built *)

Lemma fold_append_H (l : list nat) (qc : QuantumCircuit) :
  fold_left (fun qc q => append qc [H q]) l qc = append qc (map H l).
Proof.
  revert qc. induction l as [|q l IH]; intros qc; simpl.
  - unfold append. rewrite app_nil_r. destruct qc; reflexivity.
  - rewrite IH. unfold append. simpl. rewrite <- app_assoc. reflexivity.
Qed.

Lemma build_qrng_circuit (libm_log2 : float -> float) (n : Z)
  (qc : QuantumCircuit) (q : Z) :
  build_qrng libm_log2 n = Ok (qc, q) -> 0 <= q /\ qc = uniform_circuit q.
Proof.
  unfold build_qrng. destruct (math_log2 libm_log2 n) as [l|]; [|discriminate].
  simpl. destruct (math_ceil l) as [k|]; [|discriminate]. simpl.
  unfold new_circuit. destruct (k <? 0) eqn:Hk; [discriminate|]. simpl.
  intros E. injection E as <- <-. apply Z.ltb_ge in Hk. split; [exact Hk|].
  rewrite fold_append_H. reflexivity.
Qed.

(** ** Division by a zero mean *)

Lemma not_finite_spec (x : float) :
  not_finite x = true <->
  Prim2SF x = S754_nan \/ exists s, Prim2SF x = S754_infinity s.
Proof.
  unfold not_finite, is_nan, is_infinity.
  rewrite !eqb_spec, abs_spec.
  change (Prim2SF infinity) with (S754_infinity false).
  destruct (Prim2SF x) as [s|s| |s m e]; simpl.
  - split; [discriminate|]. intros [H|[s' H]]; discriminate.
  - split; [eauto|]. intros _. destruct s; reflexivity.
  - split; [auto|reflexivity].
  - unfold SFeqb, SFcompare.
    assert (Z.compare e e = Eq) as -> by apply Z.compare_refl.
    assert (Pos.compare_cont Eq m m = Eq) as Hm by apply Pos.compare_cont_refl.
    destruct s; rewrite Hm; simpl; (split; [discriminate|]);
      intros [H|[s' H]]; discriminate.
Qed.

(** Dividing by zero raises nothing: it gives NaN or an infinity. *)
Lemma div_by_zero_not_finite (x z : float) :
  (z =? 0)%float = true -> not_finite (x / z) = true.
Proof.
  rewrite eqb_spec. change (Prim2SF 0) with (S754_zero false).
  intros Hz. apply not_finite_spec. rewrite div_spec.
  destruct (Prim2SF z) as [sz|sz| |sz mz ez];
    try (destruct sz; discriminate Hz); try discriminate Hz.
  unfold SF64div, SFdiv. destruct (Prim2SF x) as [s|s| |s m e]; eauto.
Qed.

Lemma Prim2SF_1e9 :
  Prim2SF (Z2F (10 ^ 9)) = S754_finite false 8388608000000000 (-23).
Proof. vm_compute. reflexivity. Qed.

Lemma mul_1e9_not_finite (x : float) :
  not_finite x = true -> not_finite (x * Z2F (10 ^ 9)) = true.
Proof.
  rewrite !not_finite_spec, mul_spec, Prim2SF_1e9.
  unfold SF64mul, SFmul. intros [->|[s ->]]; eauto.
Qed.

Lemma div_1e9_not_finite (x : float) :
  not_finite x = true -> not_finite (x / Z2F (10 ^ 9)) = true.
Proof.
  rewrite !not_finite_spec, div_spec, Prim2SF_1e9.
  unfold SF64div, SFdiv. intros [->|[s ->]]; eauto.
Qed.

Lemma rint64_not_finite (x : float) : not_finite x = true -> rint64 x = x.
Proof.
  intros Hx. apply not_finite_spec in Hx. unfold rint64.
  rewrite ltb_spec, abs_spec.
  replace (Prim2SF two52) with (S754_finite false 4503599627370496 0)
    by (vm_compute; reflexivity).
  destruct Hx as [->|[s ->]]; reflexivity.
Qed.

Lemma std_norm_zero_mean (occurrences : list Z) :
  (np_mean binary64 occurrences =? 0)%float = true ->
  not_finite (std_norm_of binary64 occurrences) = true.
Proof.
  intros Hz. unfold std_norm_of, round9. cbn [div mul rint of_int binary64].
  apply div_1e9_not_finite.
  rewrite rint64_not_finite; apply mul_1e9_not_finite;
    apply div_by_zero_not_finite; exact Hz.
Qed.

(** ** The runner *)

Lemma std_norm_is_normalized_spread (A : Arith) (occurrences : list Z) :
  std_norm_of A occurrences = normalized_spread A occurrences.
Proof.
  unfold std_norm_of, normalized_spread, population_std, population_variance,
    np_std, np_mean, mean, total.
  rewrite map_map. reflexivity.
Qed.

Section RunnerFacts.
Variable libm_log2 : float -> float.
Variable pm_run : QuantumCircuit -> QuantumCircuit.
Variable get_counts : nat -> QuantumCircuit -> Z -> result (dict bitstring Z).

Ltac first_job Hbuild Hget Hint :=
  unfold run_qrng, runner_run, lift, ret;
  rewrite Hbuild; cbn [and_then app];
  rewrite Hget; cbn [and_then app];
  rewrite Hint; cbn [and_then app].

(** What a returned pair says about the stages before the selection. *)
Lemma run_qrng_ok_inv n shots jobs r s :
  run_qrng libm_log2 pm_run get_counts n shots = (jobs, Ok (r, s)) ->
  exists qc q counts_binary counts_int,
    build_qrng libm_log2 n = Ok (qc, q)
    /\ get_counts 0%nat (pm_run qc) shots = Ok counts_binary
    /\ to_counts_int counts_binary = Ok counts_int
    /\ s = std_norm_of binary64 (values counts_int).
Proof.
  unfold run_qrng, runner_run, lift, ret.
  destruct (build_qrng libm_log2 n) as [[qc q]|] eqn:Hbuild;
    cbn [and_then app]; [|discriminate].
  destruct (get_counts 0%nat (pm_run qc) shots) as [cb|] eqn:Hget;
    cbn [and_then app]; [|discriminate].
  destruct (to_counts_int cb) as [ci|] eqn:Hint;
    cbn [and_then app]; [|discriminate].
  intros E. exists qc, q, cb, ci.
  split; [reflexivity|]. split; [exact Hget|]. split; [exact Hint|].
  destruct (py_max (values (valid_counts_of n ci))) as [m|];
    cbn [and_then app] in E; [|discriminate].
  destruct (1 <? length (max_indices_of (values (valid_counts_of n ci)) m))%nat.
  - destruct (get_counts 1%nat (pm_run qc) 1) as [c|];
      cbn [and_then app] in E; [|discriminate].
    destruct (index (keys c) 0) as [first|];
      cbn [and_then app] in E; [|discriminate].
    destruct (int_base2 first); cbn [and_then app] in E; [|discriminate].
    congruence.
  - destruct (index (max_indices_of (values (valid_counts_of n ci)) m) 0)
      as [i|]; cbn [and_then app] in E; [|discriminate].
    destruct (index (keys (valid_counts_of n ci)) i);
      cbn [and_then app] in E; [|discriminate].
    congruence.
Qed.

(** C5: the returned spread is the population standard deviation of the
    counts of all the observed outcomes, whether below [num_outcomes] or
    not, over their mean, rounded to nine decimal places. *)
Theorem spread_is_population_std_over_mean n shots jobs r s :
  run_qrng libm_log2 pm_run get_counts n shots = (jobs, Ok (r, s)) ->
  exists counts_int,
    first_counts_int libm_log2 pm_run get_counts n shots = Ok counts_int
    /\ s = normalized_spread binary64 (values counts_int).
Proof.
  intros E. apply run_qrng_ok_inv in E.
  destruct E as (qc & q & cb & ci & Hbuild & Hget & Hint & ->).
  exists ci. split.
  - unfold first_counts_int. rewrite Hbuild. simpl. rewrite Hget. exact Hint.
  - exact (std_norm_is_normalized_spread binary64 (values ci)).
Qed.

(** C3: when one in-range outcome alone has the maximum count, it is
    returned and the backend has run only the first job. *)
Theorem unique_maximum_returned_directly
  n shots qc q counts_binary counts_int max_occurrence outcome occurrence :
  build_qrng libm_log2 n = Ok (qc, q) ->
  get_counts 0%nat (pm_run qc) shots = Ok counts_binary ->
  to_counts_int counts_binary = Ok counts_int ->
  py_max (values (valid_counts_of n counts_int)) = Ok max_occurrence ->
  candidates (valid_counts_of n counts_int) max_occurrence
  = [(outcome, occurrence)] ->
  run_qrng libm_log2 pm_run get_counts n shots
  = ([(pm_run qc, shots)],
     Ok (outcome, std_norm_of binary64 (values counts_int))).
Proof.
  intros Hbuild Hget Hint Hmax Hcand.
  first_job Hbuild Hget Hint. rewrite Hmax; cbn [and_then app].
  destruct (max_indices_single _ _ Hcand) as [i [Hidx Hnth]].
  rewrite Hidx. cbn [length Nat.ltb Nat.leb index nth_error].
  cbn [and_then app]. unfold index. rewrite Hnth. reflexivity.
Qed.

(** C2: when several in-range outcomes share the maximum count, the same
    circuit is run once more with one shot, two jobs in all, and the
    number returned is the first key of that run read in base 2, whether
    it is below [num_outcomes] or not. *)
Theorem tie_runs_one_more_shot
  n shots qc q counts_binary counts_int max_occurrence :
  build_qrng libm_log2 n = Ok (qc, q) ->
  get_counts 0%nat (pm_run qc) shots = Ok counts_binary ->
  to_counts_int counts_binary = Ok counts_int ->
  py_max (values (valid_counts_of n counts_int)) = Ok max_occurrence ->
  (1 < length (candidates (valid_counts_of n counts_int) max_occurrence))%nat ->
  run_qrng libm_log2 pm_run get_counts n shots
  = ([(pm_run qc, shots); (pm_run qc, 1)],
     bind (get_counts 1%nat (pm_run qc) 1) (fun count =>
     bind (index (keys count) 0) (fun first =>
     bind (int_base2 first) (fun random_num =>
     Ok (random_num, std_norm_of binary64 (values counts_int)))))).
Proof.
  intros Hbuild Hget Hint Hmax Htie.
  first_job Hbuild Hget Hint. rewrite Hmax; cbn [and_then app].
  rewrite max_indices_length.
  apply Nat.ltb_lt in Htie. rewrite Htie.
  destruct (get_counts 1%nat (pm_run qc) 1) as [c|]; [|reflexivity].
  cbn [bind]. destruct (index (keys c) 0) as [first|]; [|reflexivity].
  cbn [bind]. destruct (int_base2 first); reflexivity.
Qed.

(** C10: on the tie-break path the number returned is the first key of
    the one-shot counts read as a big-endian binary number; its count and
    the keys after it play no part. *)
Theorem tie_break_reads_first_key
  n shots qc q counts_binary counts_int max_occurrence first occurrence rest :
  build_qrng libm_log2 n = Ok (qc, q) ->
  get_counts 0%nat (pm_run qc) shots = Ok counts_binary ->
  to_counts_int counts_binary = Ok counts_int ->
  py_max (values (valid_counts_of n counts_int)) = Ok max_occurrence ->
  (1 < length (candidates (valid_counts_of n counts_int) max_occurrence))%nat ->
  get_counts 1%nat (pm_run qc) 1 = Ok ((first, occurrence) :: rest) ->
  first <> [] ->
  run_qrng libm_log2 pm_run get_counts n shots
  = ([(pm_run qc, shots); (pm_run qc, 1)],
     Ok (big_endian_value first,
         std_norm_of binary64 (values counts_int))).
Proof.
  intros Hbuild Hget Hint Hmax Htie Hsingle Hfirst.
  first_job Hbuild Hget Hint. rewrite Hmax; cbn [and_then app].
  rewrite max_indices_length.
  apply Nat.ltb_lt in Htie. rewrite Htie.
  rewrite Hsingle. cbn [keys map fst index nth_error and_then app].
  rewrite int_base2_big_endian by exact Hfirst. reflexivity.
Qed.

(** C6, as the program behaves: when every measured outcome is at or
    above [num_outcomes], the run stops after the first job with the
    [ValueError] that [max] raises on the empty list of valid counts. *)
Theorem no_valid_outcome_max_raises
  n shots qc q counts_binary counts_int :
  build_qrng libm_log2 n = Ok (qc, q) ->
  get_counts 0%nat (pm_run qc) shots = Ok counts_binary ->
  to_counts_int counts_binary = Ok counts_int ->
  (forall outcome, In outcome (keys counts_int) -> n <= outcome) ->
  run_qrng libm_log2 pm_run get_counts n shots
  = ([(pm_run qc, shots)], Err (ValueError MaxEmptySequence)).
Proof.
  intros Hbuild Hget Hint Hout.
  assert (valid_counts_of n counts_int = []) as Hvalid.
  { unfold valid_counts_of.
    replace (filter (fun item => fst item <? n) counts_int) with
      (@nil (Z * Z)); [reflexivity|].
    symmetry. clear Hint. induction counts_int as [|[k v] d IH]; [reflexivity|].
    simpl. assert (n <= k) as Hk by (apply Hout; left; reflexivity).
    apply Z.ltb_ge in Hk. rewrite Hk. apply IH.
    intros o Ho. apply Hout. right. exact Ho. }
  first_job Hbuild Hget Hint. rewrite Hvalid. reflexivity.
Qed.

(** C8, as the program behaves: a zero mean makes the spread computation
    raise nothing; the division gives NaN or an infinity, and a run that
    returns hands that value back as its spread. *)
Theorem zero_mean_spread_not_finite n shots counts_int jobs r s :
  first_counts_int libm_log2 pm_run get_counts n shots = Ok counts_int ->
  (np_mean binary64 (values counts_int) =? 0)%float = true ->
  run_qrng libm_log2 pm_run get_counts n shots = (jobs, Ok (r, s)) ->
  not_finite s = true.
Proof.
  intros Hfirst Hzero E. apply run_qrng_ok_inv in E.
  destruct E as (qc & q & cb & ci & Hbuild & Hget & Hint & ->).
  unfold first_counts_int in Hfirst. rewrite Hbuild in Hfirst.
  simpl in Hfirst. rewrite Hget in Hfirst. simpl in Hfirst.
  rewrite Hint in Hfirst. injection Hfirst as ->.
  apply std_norm_zero_mean. exact Hzero.
Qed.

(** The backend never runs more than two jobs. *)
Lemma at_most_two_jobs n shots :
  (length (fst (run_qrng libm_log2 pm_run get_counts n shots)) <= 2)%nat.
Proof.
  unfold run_qrng, runner_run, lift, ret.
  destruct (build_qrng libm_log2 n) as [[qc q]|];
    cbn [and_then app]; [|simpl; lia].
  destruct (get_counts 0%nat (pm_run qc) shots) as [cb|];
    cbn [and_then app]; [|simpl; lia].
  destruct (to_counts_int cb) as [ci|]; cbn [and_then app]; [|simpl; lia].
  destruct (py_max (values (valid_counts_of n ci))) as [m|];
    cbn [and_then app]; [|simpl; lia].
  destruct (1 <? length (max_indices_of (values (valid_counts_of n ci)) m))%nat.
  - destruct (get_counts 1%nat (pm_run qc) 1) as [c|];
      cbn [and_then app]; [|simpl; lia].
    destruct (index (keys c) 0) as [first|];
      cbn [and_then app]; [|simpl; lia].
    destruct (int_base2 first); simpl; lia.
  - destruct (index (max_indices_of (values (valid_counts_of n ci)) m) 0)
      as [i|]; cbn [and_then app]; [|simpl; lia].
    destruct (index (keys (valid_counts_of n ci)) i); simpl; lia.
Qed.
End RunnerFacts.

(** ** The spread over exact arithmetic *)

Lemma fold_left_Rplus (a : list R) (acc : R) :
  fold_left Rplus a acc = (acc + Rsum a)%R.
Proof.
  revert acc. induction a as [|x a IH]; intros acc; simpl.
  - lra.
  - rewrite IH. lra.
Qed.

Lemma Rsum_app (a b : list R) : Rsum (a ++ b) = (Rsum a + Rsum b)%R.
Proof. induction a as [|x a IH]; simpl; [lra|rewrite IH; lra]. Qed.

Lemma Rsum_firstn_skipn (n : nat) (a : list R) :
  (Rsum (firstn n a) + Rsum (skipn n a))%R = Rsum a.
Proof. rewrite <- Rsum_app, firstn_skipn. reflexivity. Qed.

Lemma Rsum_zip (r b : list R) :
  length r = length b ->
  Rsum (map (fun p => (fst p + snd p)%R) (combine r b)) = (Rsum r + Rsum b)%R.
Proof.
  revert b. induction r as [|x r IH]; intros [|y b]; simpl; try discriminate.
  - intros _. lra.
  - intros E. injection E as E. rewrite IH by exact E. lra.
Qed.

(** The eight running sums lose nothing. *)
Lemma add_blocks_exact (fuel : nat) (r a : list R) :
  length r = 8%nat -> (length a <= 8 * fuel)%nat ->
  (exists j, length a = 8 * j)%nat ->
  length (add_blocks exact fuel r a) = 8%nat
  /\ Rsum (add_blocks exact fuel r a) = (Rsum r + Rsum a)%R.
Proof.
  revert r a. induction fuel as [|fuel IH]; intros r a Hr Hlen [j Hj].
  - assert (a = []) as -> by (destruct a; [reflexivity|simpl in Hlen; lia]).
    simpl. split; [exact Hr|lra].
  - destruct a as [|x a'] eqn:Ea.
    + simpl. split; [exact Hr|lra].
    + rewrite <- Ea in *. assert (8 <= length a)%nat as H8.
      { destruct j; [rewrite Ea in Hj; simpl in Hj; lia|lia]. }
      assert (add_blocks exact (S fuel) r a
              = add_blocks exact fuel
                  (map (fun p => (fst p + snd p)%R) (combine r (firstn 8 a)))
                  (skipn 8 a)) as ->.
      { rewrite Ea. reflexivity. }
      assert (length (firstn 8 a) = 8%nat) as Hf by (rewrite firstn_length_le; lia).
      destruct (IH (map (fun p => (fst p + snd p)%R) (combine r (firstn 8 a)))
                   (skipn 8 a)) as [HL HS].
      * rewrite length_map, length_combine, Hr, Hf. reflexivity.
      * rewrite length_skipn. lia.
      * exists (j - 1)%nat. rewrite length_skipn. lia.
      * split; [exact HL|]. rewrite HS, Rsum_zip by congruence.
        rewrite <- (Rsum_firstn_skipn 8 a). lra.
Qed.

Lemma Rsum_8 (r : list R) :
  length r = 8%nat ->
  (((nth 0 r 0 + nth 1 r 0) + (nth 2 r 0 + nth 3 r 0))
   + ((nth 4 r 0 + nth 5 r 0) + (nth 6 r 0 + nth 7 r 0)))%R = Rsum r.
Proof.
  do 9 (destruct r as [|? r]; try discriminate). intros _. simpl. lra.
Qed.


Lemma block_sum_exact (a : list R) :
  (8 <= length a)%nat ->
  let full := (length a - length a mod 8)%nat in
  let r := add_blocks exact (length a) (firstn 8 a) (skipn 8 (firstn full a)) in
  fold_left Rplus (skipn full a)
    (((nth 0 r 0 + nth 1 r 0) + (nth 2 r 0 + nth 3 r 0))
     + ((nth 4 r 0 + nth 5 r 0) + (nth 6 r 0 + nth 7 r 0)))%R
  = Rsum a.
Proof.
  intros H8 full r.
  pose proof (Nat.mod_upper_bound (length a) 8 ltac:(lia)) as Hm.
  pose proof (Nat.div_mod_eq (length a) 8) as Hd.
  destruct (add_blocks_exact (length a) (firstn 8 a) (skipn 8 (firstn full a)))
    as [HL HS].
  - rewrite firstn_length_le; lia.
  - rewrite length_skipn, length_firstn. lia.
  - exists (length a / 8 - 1)%nat. rewrite length_skipn, length_firstn.
    unfold full. lia.
  - rewrite fold_left_Rplus. fold r in HL, HS.
    change (num exact) with R in *. rewrite (Rsum_8 _ HL), HS.
    rewrite <- (Rsum_firstn_skipn full a).
    rewrite <- (Rsum_firstn_skipn 8 (firstn full a)).
    rewrite firstn_firstn.
    replace (Nat.min 8 full) with 8%nat by (unfold full; lia).
    lra.
Qed.

(** Over the reals the pairwise sum is the sum. *)
Lemma pairwise_sum_exact (fuel : nat) (a : list R) :
  (length a <= fuel + 128)%nat -> pairwise_sum exact fuel a = Rsum a.
Proof.
  revert a. induction fuel as [|fuel IH]; intros a Hlen;
    cbn [pairwise_sum]; change (num exact) with R;
    (destruct (length a <? 8)%nat eqn:E8;
     [rewrite fold_left_Rplus; simpl; lra|apply Nat.ltb_ge in E8]).
  - assert ((length a <=? 128)%nat = true) as -> by (apply Nat.leb_le; lia).
    apply (block_sum_exact a E8).
  - destruct (length a <=? 128)%nat eqn:E128; [apply (block_sum_exact a E8)|].
    apply Nat.leb_gt in E128.
    pose proof (Nat.mod_upper_bound (length a / 2) 8 ltac:(lia)) as Hm.
    pose proof (Nat.div_mod_eq (length a) 2) as Hd.
    pose proof (Nat.mod_upper_bound (length a) 2 ltac:(lia)) as Hm2.
    rewrite !IH.
    + cbn [add exact]. apply Rsum_firstn_skipn.
    + rewrite length_skipn. lia.
    + rewrite length_firstn. lia.
Qed.

Lemma add_reduce_exact (a : list R) : add_reduce exact a = Rsum a.
Proof.
  unfold add_reduce. rewrite pairwise_sum_exact by (change (num exact) with R; lia).
  cbn [add exact of_int]. lra.
Qed.

Lemma Rsum_scale (k : R) (a : list R) :
  Rsum (map (Rmult k) a) = (k * Rsum a)%R.
Proof. induction a as [|x a IH]; simpl; [lra|rewrite IH; lra]. Qed.

Lemma np_mean_scale (k : Z) (occ : list Z) :
  np_mean exact (map (Z.mul k) occ) = (IZR k * np_mean exact occ)%R.
Proof.
  unfold np_mean, count. rewrite !add_reduce_exact, length_map.
  cbn [div exact of_int]. rewrite map_map.
  rewrite (map_ext _ (fun v => (IZR k * IZR v)%R)) by (intros; apply mult_IZR).
  rewrite <- (map_map IZR (Rmult (IZR k))), Rsum_scale.
  change (num exact) with R. unfold Rdiv. ring.
Qed.

Lemma np_std_scale (k : Z) (occ : list Z) :
  0 < k -> np_std exact (map (Z.mul k) occ) = (IZR k * np_std exact occ)%R.
Proof.
  intros Hk. assert (0 < IZR k)%R as HkR by (apply IZR_lt; exact Hk).
  unfold np_std. fold (np_mean exact (map (Z.mul k) occ)).
  fold (np_mean exact occ). rewrite np_mean_scale.
  unfold count. rewrite !add_reduce_exact, length_map.
  cbn [div sub mul sqrt exact of_int]. rewrite !map_map.
  rewrite (map_ext _ (fun v => (IZR k * IZR k
             * ((IZR v - np_mean exact occ) * (IZR v - np_mean exact occ)))%R)).
  2:{ intros v. rewrite mult_IZR. cbn [num exact]. ring. }
  rewrite <- (map_map (fun v => ((IZR v - np_mean exact occ)
                                 * (IZR v - np_mean exact occ))%R)
                      (Rmult (IZR k * IZR k))).
  rewrite Rsum_scale.
  replace (IZR k * IZR k * Rsum (map (fun v : Z => ((IZR v - np_mean exact occ) * (IZR v - np_mean exact occ))%R) occ) / IZR (Z.of_nat (length occ)))%R
    with ((IZR k * IZR k) * (Rsum (map (fun v : Z => ((IZR v - np_mean exact occ) * (IZR v - np_mean exact occ))%R) occ) / IZR (Z.of_nat (length occ))))%R
    by (unfold Rdiv; ring).
  change (num exact) with R.
  rewrite sqrt_mult_alt by nra. rewrite sqrt_square by lra. reflexivity.
Qed.

(** C9, as it holds: over exact arithmetic, multiplying every count of a
    non-empty list by the same positive factor leaves the spread as it
    was.  (In binary64 the last decimal place kept can change.) *)
Theorem exact_spread_scale_invariant (occ : list Z) (k : Z) :
  occ <> [] -> 0 < k ->
  std_norm_of exact (map (Z.mul k) occ) = std_norm_of exact occ.
Proof.
  intros _ Hk. assert (0 < IZR k)%R as HkR by (apply IZR_lt; exact Hk).
  unfold std_norm_of. rewrite np_std_scale, np_mean_scale by exact Hk.
  f_equal. cbn [div exact]. change (num exact) with R.
  unfold Rdiv. rewrite Rinv_mult.
  replace (IZR k * np_std exact occ * (/ IZR k * / np_mean exact occ))%R
    with ((IZR k * / IZR k) * (np_std exact occ * / np_mean exact occ))%R by ring.
  rewrite Rinv_r by lra. ring.
Qed.

(** ** The properties on measured counts *)

Lemma exact_spread_scale_invariant_witness :
  std_norm_of exact (map (Z.mul 5) occurrences_near_tie)
  = std_norm_of exact occurrences_near_tie.
Proof.
  apply (@exact_spread_scale_invariant occurrences_near_tie 5).
  - discriminate.
  - reflexivity.
Defined.

(** C9 in binary64: the counts 412, 409, 409, 409, 409 have spread
    0.002929687, and five times those counts 0.002929688, in [std_norm_of]
    and in what [run_qrng] returns. *)
Lemma binary64_spread_changes_with_scale :
  std_norm_of binary64 occurrences_near_tie
  = (Z2F 2929687 / Z2F (10 ^ 9))%float
  /\ std_norm_of binary64 (map (Z.mul 5) occurrences_near_tie)
     = (Z2F 2929688 / Z2F (10 ^ 9))%float
  /\ (Z2F 2929687 / Z2F (10 ^ 9) <? Z2F 2929688 / Z2F (10 ^ 9))%float = true
  /\ snd (run_qrng log2_chord pm_id (mock_counts (counts_near_tie 1) []) 8 2048)
     = Ok (0, (Z2F 2929687 / Z2F (10 ^ 9))%float)
  /\ snd (run_qrng log2_chord pm_id (mock_counts (counts_near_tie 5) []) 8 10240)
     = Ok (0, (Z2F 2929688 / Z2F (10 ^ 9))%float).
Proof. repeat split; vm_compute; reflexivity. Qed.

Lemma spread_is_population_std_over_mean_witness :
  exists counts_int,
    first_counts_int log2_chord pm_id (mock_counts counts_clear []) 4 100
    = Ok counts_int
    /\ std_norm_of binary64 [40; 10; 10; 10]
       = normalized_spread binary64 (values counts_int).
Proof.
  apply (@spread_is_population_std_over_mean log2_chord pm_id
           (mock_counts counts_clear []) 4 100
           [(uniform_circuit 2, 100)] 0 (std_norm_of binary64 [40; 10; 10; 10])).
  vm_compute. reflexivity.
Defined.

(** The specification's example: counts 40, 10, 10, 10 for four outcomes
    give outcome 0 after a single job. *)
Lemma unique_maximum_returned_directly_witness :
  run_qrng log2_chord pm_id (mock_counts counts_clear []) 4 100
  = ([(pm_id (uniform_circuit 2), 100)],
     Ok (0, std_norm_of binary64
              (values [(0, 40); (1, 10); (2, 10); (3, 10)]))).
Proof.
  apply (@unique_maximum_returned_directly log2_chord pm_id
           (mock_counts counts_clear []) 4 100 (uniform_circuit 2) 2
           counts_clear [(0, 40); (1, 10); (2, 10); (3, 10)] 40 0 40);
    vm_compute; reflexivity.
Defined.

(** Three outcomes asked for, 0 and 1 tied, and the extra shot measures 11:
    the run returns 3, which is not below 3. *)
Lemma tie_runs_one_more_shot_witness :
  run_qrng log2_chord pm_id (mock_counts counts_tied counts_eleven) 3 2
  = ([(pm_id (uniform_circuit 2), 2); (pm_id (uniform_circuit 2), 1)],
     bind (mock_counts counts_tied counts_eleven 1 (pm_id (uniform_circuit 2)) 1)
       (fun count =>
        bind (index (keys count) 0) (fun first =>
        bind (int_base2 first) (fun random_num =>
        Ok (random_num,
            std_norm_of binary64 (values [(0, 1); (1, 1)]))))))
  /\ snd (run_qrng log2_chord pm_id (mock_counts counts_tied counts_eleven) 3 2)
     = Ok (3, 0%float)
  /\ (3 <? 3) = false.
Proof.
  split; [|split; vm_compute; reflexivity].
  apply (@tie_runs_one_more_shot log2_chord pm_id
           (mock_counts counts_tied counts_eleven) 3 2 (uniform_circuit 2) 2
           counts_tied [(0, 1); (1, 1)] 1).
  - vm_compute. reflexivity.
  - reflexivity.
  - vm_compute. reflexivity.
  - vm_compute. reflexivity.
  - vm_compute. apply le_n.
Defined.

(** The one-shot counts may hold more than one key: only the first is
    read. *)
Lemma tie_break_reads_first_key_witness :
  run_qrng log2_chord pm_id
    (mock_counts counts_tied ((bits 2 3, 1) :: counts_clear)) 3 2
  = ([(pm_id (uniform_circuit 2), 2); (pm_id (uniform_circuit 2), 1)],
     Ok (big_endian_value (bits 2 3),
         std_norm_of binary64 (values [(0, 1); (1, 1)]))).
Proof.
  apply (@tie_break_reads_first_key log2_chord pm_id
           (mock_counts counts_tied ((bits 2 3, 1) :: counts_clear)) 3 2
           (uniform_circuit 2) 2 counts_tied [(0, 1); (1, 1)] 1
           (bits 2 3) 1 counts_clear).
  - vm_compute. reflexivity.
  - reflexivity.
  - vm_compute. reflexivity.
  - vm_compute. reflexivity.
  - vm_compute. apply le_n.
  - reflexivity.
  - discriminate.
Defined.

Lemma no_valid_outcome_max_raises_witness :
  run_qrng log2_chord pm_id (mock_counts counts_eleven []) 3 1
  = ([(pm_id (uniform_circuit 2), 1)], Err (ValueError MaxEmptySequence)).
Proof.
  apply (@no_valid_outcome_max_raises log2_chord pm_id
           (mock_counts counts_eleven []) 3 1 (uniform_circuit 2) 2
           counts_eleven [(3, 1)]).
  - vm_compute. reflexivity.
  - reflexivity.
  - vm_compute. reflexivity.
  - intros outcome [<-|[]]. discriminate.
Defined.

(** C6 as stated: three outcomes asked for and only 11 measured.  What the
    caller gets is the failure of [max] on an empty list. *)
Lemma only_out_of_range_crashes_in_max :
  valid_counts_of 3 [(3, 1)] = []
  /\ py_max (values (valid_counts_of 3 [(3, 1)]))
     = Err (ValueError MaxEmptySequence)
  /\ snd (run_qrng log2_chord pm_id (mock_counts counts_eleven []) 3 1)
     = Err (ValueError MaxEmptySequence).
Proof. repeat split; vm_compute; reflexivity. Qed.

Lemma zero_mean_spread_not_finite_witness :
  first_counts_int log2_chord pm_id
    (mock_counts counts_zero [(bits 1 1, 1)]) 2 1
  = Ok [(0, 0); (1, 0)]
  /\ not_finite
       (std_norm_of binary64 (values [(0, 0); (1, 0)])) = true.
Proof.
  split; [vm_compute; reflexivity|].
  apply (@zero_mean_spread_not_finite log2_chord pm_id
           (mock_counts counts_zero [(bits 1 1, 1)]) 2 1 [(0, 0); (1, 0)]
           [(pm_id (uniform_circuit 1), 1); (pm_id (uniform_circuit 1), 1)]
           1 (std_norm_of binary64 (values [(0, 0); (1, 0)])));
    vm_compute; reflexivity.
Defined.

(** C8 as stated: two patterns counted zero times have mean zero, and the
    run returns, with NaN for the spread. *)
Lemma zero_mean_run_returns_nan :
  (np_mean binary64 [0; 0]%Z =? 0)%float = true
  /\ run_qrng log2_chord pm_id (mock_counts counts_zero [(bits 1 1, 1)]) 2 1
     = ([(uniform_circuit 1, 1); (uniform_circuit 1, 1)], Ok (1, nan)).
Proof. split; vm_compute; reflexivity. Qed.

(** * Further properties *)

(** ** The builder on powers of two *)

Lemma build_qrng_circuit_witness :
  build_qrng log2_chord 5
  = Ok ({| num_qubits := 3; num_clbits := 3;
           data := [H 0; H 1; H 2; Measure 0 0; Measure 1 1; Measure 2 2] |},
        3)
  /\ (0 <= 3
      /\ {| num_qubits := 3; num_clbits := 3;
            data := [H 0; H 1; H 2; Measure 0 0; Measure 1 1; Measure 2 2] |}
         = uniform_circuit 3).
Proof.
  split; [vm_compute; reflexivity|].
  apply (@build_qrng_circuit log2_chord 5). vm_compute. reflexivity.
Defined.

(** Up to 1023, a power of two is a double, and so is its exponent, which
    [math.ceil] gives back. *)
Lemma exponents_are_exact :
  forallb
    (fun k => negb (is_infinity (Z2F (2 ^ k)))
              && negb (is_nan (Z2F k))
              && negb (is_infinity (Z2F k))
              && (ceil_finite (Z2F k) =? k))
    (map Z.of_nat (seq 0 1024))
  = true.
Proof. vm_compute. reflexivity. Qed.

(** For [2^k] outcomes, [k] up to 1023, and a [log2] that is exact there (as
    the C library's is on powers of two), the builder returns [k] qubits:
    just enough for the outcomes asked for. *)
Theorem build_qrng_power_of_two (libm_log2 : float -> float) (k : Z) :
  0 <= k <= 1023 ->
  libm_log2 (Z2F (2 ^ k)) = Z2F k ->
  build_qrng libm_log2 (2 ^ k) = Ok (uniform_circuit k, k).
Proof.
  intros Hk Hlog.
  assert (In k (map Z.of_nat (seq 0 1024))) as Hin.
  { apply in_map_iff. exists (Z.to_nat k). split; [lia|].
    apply in_seq. lia. }
  pose proof (proj1 (forallb_forall _ _) exponents_are_exact k Hin) as Hc.
  cbv beta in Hc. apply andb_true_iff in Hc. destruct Hc as [Hc Hceil].
  apply andb_true_iff in Hc. destruct Hc as [Hc Hinf].
  apply andb_true_iff in Hc. destruct Hc as [Hbig Hnan].
  apply negb_true_iff in Hbig, Hnan, Hinf. apply Z.eqb_eq in Hceil.
  unfold build_qrng, math_log2.
  assert ((2 ^ k <=? 0) = false) as ->.
  { apply Z.leb_gt. apply Z.pow_pos_nonneg; lia. }
  rewrite Hbig, Hlog. cbn [bind]. unfold math_ceil.
  rewrite Hnan, Hinf, Hceil. cbn [bind]. unfold new_circuit.
  assert ((k <? 0) = false) as -> by (apply Z.ltb_ge; lia).
  cbn [orb bind]. rewrite fold_append_H. reflexivity.
Qed.

Lemma build_qrng_power_of_two_witness :
  build_qrng log2_chord (2 ^ 10) = Ok (uniform_circuit 10, 10).
Proof.
  apply (@build_qrng_power_of_two log2_chord 10).
  - split; discriminate.
  - vm_compute. reflexivity.
Defined.

(** ** Bit patterns of one width *)

Lemma big_endian_value_lt (s : bitstring) :
  big_endian_value s < 2 ^ Z.of_nat (length s).
Proof.
  induction s as [|b s IH]; [simpl; lia|].
  cbn [big_endian_value length]. rewrite Nat2Z.inj_succ, Z.pow_succ_r by lia.
  destruct b; simpl bit_value; lia.
Qed.

Lemma big_endian_value_inj (s t : bitstring) :
  length s = length t -> big_endian_value s = big_endian_value t -> s = t.
Proof.
  revert t. induction s as [|b s IH]; intros [|c t]; try discriminate.
  - reflexivity.
  - cbn [length big_endian_value]. intros Hlen Hval. injection Hlen as Hlen.
    rewrite Hlen in Hval.
    pose proof (big_endian_value_lt s) as Hs. rewrite Hlen in Hs.
    pose proof (big_endian_value_lt t) as Ht.
    pose proof (big_endian_value_nonneg s).
    pose proof (big_endian_value_nonneg t).
    assert (b = c) as ->.
    { destruct b, c; simpl bit_value in Hval; try reflexivity; lia. }
    f_equal. apply IH; [exact Hlen|lia].
Qed.

Lemma int_items_app (cb1 cb2 : list (bitstring * Z)) (l1 l2 : list (Z * Z)) :
  int_items cb1 = Ok l1 -> int_items cb2 = Ok l2 ->
  int_items (cb1 ++ cb2) = Ok (l1 ++ l2).
Proof.
  revert l1. induction cb1 as [|[s c] cb1 IH]; intros l1 H1 H2.
  - injection H1 as <-. exact H2.
  - simpl in H1 |- *. destruct (int_base2 s) as [k|]; [|discriminate].
    simpl in H1 |- *. destruct (int_items cb1) as [r|]; [|discriminate].
    simpl in H1. injection H1 as <-. rewrite (IH r eq_refl H2). reflexivity.
Qed.

Lemma int_items_fixed_width (w : nat) (cb : list (bitstring * Z)) :
  (0 < w)%nat ->
  (forall s, In s (keys cb) -> length s = w) ->
  int_items cb
  = Ok (map (fun item => (big_endian_value (fst item), snd item)) cb).
Proof.
  intros Hw. induction cb as [|[s c] cb IH]; intros Hlen; [reflexivity|].
  cbn [int_items map fst snd].
  rewrite int_base2_big_endian.
  - cbn [bind]. rewrite IH; [reflexivity|].
    intros t Ht. apply Hlen. right. exact Ht.
  - intros ->. specialize (Hlen [] (or_introl eq_refl)). simpl in Hlen. lia.
Qed.

Lemma NoDup_map_in (A B : Type) (f : A -> B) (l : list A) :
  (forall x y, In x l -> In y l -> f x = f y -> x = y) ->
  NoDup l -> NoDup (map f l).
Proof.
  induction l as [|a l IH]; intros Hinj Hnd; [constructor|].
  inversion Hnd as [|? ? Ha Hl]; subst. simpl. constructor.
  - intros Hin. apply in_map_iff in Hin. destruct Hin as [x [Hx Hxl]].
    apply Ha. rewrite <- (Hinj x a); [exact Hxl|right; exact Hxl| |exact Hx].
    left. reflexivity.
  - apply IH; [|exact Hl]. intros x y Hx Hy. apply Hinj; right; assumption.
Qed.

(** When the backend's patterns are distinct and all of one width, each
    pattern becomes its own outcome: the integer counts are the measured
    counts, entry for entry and in the same order. *)
Theorem fixed_width_counts_kept (w : nat) (counts_binary : dict bitstring Z) :
  (0 < w)%nat ->
  (forall s, In s (keys counts_binary) -> length s = w) ->
  NoDup (keys counts_binary) ->
  to_counts_int counts_binary
  = Ok (map (fun item => (big_endian_value (fst item), snd item))
            counts_binary).
Proof.
  intros Hw Hlen Hnd. unfold to_counts_int.
  rewrite (int_items_fixed_width counts_binary Hw Hlen). cbn [bind].
  f_equal. apply (@dict_of_items_nodup _ _ _ Z.eqb_eq).
  unfold keys in *. rewrite map_map. cbn [fst].
  rewrite <- (map_map fst big_endian_value).
  apply NoDup_map_in; [|exact Hnd].
  intros s t Hs Ht. apply big_endian_value_inj.
  rewrite (Hlen s Hs), (Hlen t Ht). reflexivity.
Qed.

Lemma fixed_width_counts_kept_witness :
  to_counts_int counts_clear
  = Ok (map (fun item => (big_endian_value (fst item), snd item))
            counts_clear).
Proof.
  apply (@fixed_width_counts_kept 2 counts_clear).
  - apply le_S, le_n.
  - intros s [<-|[<-|[<-|[<-|[]]]]]; reflexivity.
  - unfold keys, counts_clear. simpl.
    repeat constructor; simpl; intuition discriminate.
Defined.

Lemma dict_set_present (d : dict Z Z) (k v : Z) :
  In k (keys d) ->
  keys (dict_set Z.eqb d k v) = keys d /\ In (k, v) (dict_set Z.eqb d k v).
Proof.
  induction d as [|[k' v'] d IH]; [intros []|].
  cbn [keys map fst dict_set]. intros Hin.
  destruct (k' =? k) eqn:E.
  - apply Z.eqb_eq in E. subst. split; [reflexivity|left; reflexivity].
  - destruct Hin as [->|Hin]; [rewrite Z.eqb_refl in E; discriminate|].
    destruct (IH Hin) as [Hk Hv]. split.
    + cbn [keys map fst]. unfold keys in Hk. rewrite Hk. reflexivity.
    + right. exact Hv.
Qed.

(** A later pattern that names an outcome already seen (as 01 and 1 do)
    does not add to its count: the outcome keeps its place and the later
    count replaces the earlier one. *)
Theorem repeated_outcome_overwrites
  (counts_binary : dict bitstring Z) (counts_int : dict Z Z)
  (s : bitstring) (outcome occurrence : Z) :
  to_counts_int counts_binary = Ok counts_int ->
  int_base2 s = Ok outcome ->
  In outcome (keys counts_int) ->
  exists counts_int',
    to_counts_int (counts_binary ++ [(s, occurrence)]) = Ok counts_int'
    /\ keys counts_int' = keys counts_int
    /\ In (outcome, occurrence) counts_int'.
Proof.
  unfold to_counts_int. intros Hint Hs Hin.
  destruct (int_items counts_binary) as [items|] eqn:Hitems; [|discriminate].
  cbn [bind] in Hint. injection Hint as <-.
  assert (int_items [(s, occurrence)] = Ok [(outcome, occurrence)]) as Hlast.
  { simpl. rewrite Hs. reflexivity. }
  rewrite (int_items_app _ _ Hitems Hlast). cbn [bind].
  exists (dict_set Z.eqb (dict_of_items Z.eqb items) outcome occurrence).
  split.
  - unfold dict_of_items, dict_update. rewrite fold_left_app. reflexivity.
  - apply dict_set_present. exact Hin.
Qed.

Lemma repeated_outcome_overwrites_witness :
  exists counts_int',
    to_counts_int ([([true], 5)] ++ [([false; true], 7)]) = Ok counts_int'
    /\ keys counts_int' = keys [(1, 5)]
    /\ In (1, 7) counts_int'.
Proof.
  apply (@repeated_outcome_overwrites [([true], 5)] [(1, 5)] [false; true] 1 7).
  - reflexivity.
  - reflexivity.
  - left. reflexivity.
Defined.

(** ** What the runner returns and when it fails *)

Lemma valid_counts_filter (n : Z) (counts_binary : dict bitstring Z)
  (counts_int : dict Z Z) :
  to_counts_int counts_binary = Ok counts_int ->
  valid_counts_of n counts_int
  = filter (fun item => fst item <? n) counts_int.
Proof.
  intros E. destruct (to_counts_int_keys _ E) as [Hnd _].
  unfold valid_counts_of. apply (@dict_of_items_nodup _ _ _ Z.eqb_eq).
  apply NoDup_keys_filter. exact Hnd.
Qed.

Lemma candidates_In (d : dict Z Z) (m k v : Z) :
  In (k, v) (candidates d m) <-> In (k, v) d /\ v = m.
Proof.
  unfold candidates. rewrite filter_In. simpl. rewrite Z.eqb_eq. tauto.
Qed.

(** The maximum is the count of some outcome. *)
Lemma py_max_candidates (d : dict Z Z) (m : Z) :
  py_max (values d) = Ok m -> candidates d m <> [].
Proof.
  intros Hmax. apply py_max_spec in Hmax. destruct Hmax as [Hin _].
  unfold values in Hin. apply in_map_iff in Hin.
  destruct Hin as [[k v] [Hv Hin]]. simpl in Hv. subst.
  intros Hnil. assert (In (k, m) (candidates d m)) as Hc.
  { apply candidates_In. tauto. }
  rewrite Hnil in Hc. exact Hc.
Qed.

Lemma index_In (A : Type) (l : list A) (i : nat) (a : A) :
  index l i = Ok a -> In a l.
Proof.
  unfold index. destruct (nth_error l i) eqn:E; [|discriminate].
  intros H. injection H as <-. eapply nth_error_In. exact E.
Qed.

Section RunnerReturns.
Variable libm_log2 : float -> float.
Variable pm_run : QuantumCircuit -> QuantumCircuit.
Variable get_counts : nat -> QuantumCircuit -> Z -> result (dict bitstring Z).

Ltac to_selection Hbuild Hget Hint :=
  unfold run_qrng, runner_run, lift, ret;
  rewrite Hbuild; cbn [and_then app];
  rewrite Hget; cbn [and_then app];
  rewrite Hint; cbn [and_then app].

(** A returned pair comes from the tie-break job or from the one candidate. *)
Lemma run_qrng_ok_cases n shots jobs r s :
  run_qrng libm_log2 pm_run get_counts n shots = (jobs, Ok (r, s)) ->
  exists qc q counts_binary counts_int m,
    build_qrng libm_log2 n = Ok (qc, q)
    /\ get_counts 0%nat (pm_run qc) shots = Ok counts_binary
    /\ to_counts_int counts_binary = Ok counts_int
    /\ py_max (values (valid_counts_of n counts_int)) = Ok m
    /\ ((jobs = [(pm_run qc, shots); (pm_run qc, 1)]
         /\ exists count first,
              get_counts 1%nat (pm_run qc) 1 = Ok count
              /\ index (keys count) 0 = Ok first
              /\ int_base2 first = Ok r)
        \/ (jobs = [(pm_run qc, shots)]
            /\ exists occ,
                 candidates (valid_counts_of n counts_int) m = [(r, occ)])).
Proof.
  unfold run_qrng, runner_run, lift, ret.
  destruct (build_qrng libm_log2 n) as [[qc q]|] eqn:Hbuild;
    cbn [and_then app]; [|discriminate].
  destruct (get_counts 0%nat (pm_run qc) shots) as [cb|] eqn:Hget;
    cbn [and_then app]; [|discriminate].
  destruct (to_counts_int cb) as [ci|] eqn:Hint;
    cbn [and_then app]; [|discriminate].
  destruct (py_max (values (valid_counts_of n ci))) as [m|] eqn:Hmax;
    cbn [and_then app]; [|discriminate].
  intros E. exists qc, q, cb, ci, m.
  split; [reflexivity|]. split; [exact Hget|]. split; [exact Hint|].
  split; [exact Hmax|].
  pose proof (max_indices_positions (valid_counts_of n ci) m 0) as HF.
  change (map fst
            (filter (fun p => snd p =? m)
               (combine (seq 0 (length (values (valid_counts_of n ci))))
                  (values (valid_counts_of n ci)))))
    with (max_indices_of (values (valid_counts_of n ci)) m) in HF.
  destruct (max_indices_of (values (valid_counts_of n ci)) m)
    as [|i [|i' rest]].
  - cbn [length Nat.ltb Nat.leb index nth_error and_then app] in E.
    discriminate.
  - cbn [length Nat.ltb Nat.leb index nth_error and_then app] in E.
    right. inversion HF as [|? item ? items [_ Hi] Hrest]; subst.
    inversion Hrest; subst. rewrite Nat.sub_0_r in Hi.
    unfold index in E. rewrite Hi in E. cbn [and_then app] in E.
    injection E as <- <- _. split; [reflexivity|].
    exists (snd item). destruct item. reflexivity.
  - cbn [length Nat.ltb Nat.leb] in E. left.
    destruct (get_counts 1%nat (pm_run qc) 1) as [c|];
      cbn [and_then app] in E; [|discriminate].
    destruct (index (keys c) 0) as [first|] eqn:Hfirst;
      cbn [and_then app] in E; [|discriminate].
    destruct (int_base2 first) as [z|] eqn:Hz;
      cbn [and_then app] in E; [|discriminate].
    injection E as <- <- _. split; [reflexivity|].
    exists c, first. repeat split; assumption.
Qed.

(** A non-positive number of outcomes stops the run in the builder, with
    the [ValueError] of [math.log2], before any job reaches the backend. *)
Theorem nonpositive_outcomes_run_no_job n shots :
  n <= 0 ->
  run_qrng libm_log2 pm_run get_counts n shots
  = ([], Err (ValueError MathDomain)).
Proof.
  intros Hn. unfold run_qrng, lift, build_qrng.
  rewrite math_log2_nonpositive by exact Hn. reflexivity.
Qed.

(** When the first job fails, its exception is what the caller gets: the
    job is not run again and no other job is run. *)
Theorem first_job_failure_is_final n shots qc q e :
  build_qrng libm_log2 n = Ok (qc, q) ->
  get_counts 0%nat (pm_run qc) shots = Err e ->
  run_qrng libm_log2 pm_run get_counts n shots = ([(pm_run qc, shots)], Err e).
Proof.
  intros Hbuild Hget. unfold run_qrng, runner_run, lift.
  rewrite Hbuild; cbn [and_then app]. rewrite Hget. reflexivity.
Qed.

(** The number returned is never negative. *)
Theorem returned_number_nonneg n shots jobs r s :
  run_qrng libm_log2 pm_run get_counts n shots = (jobs, Ok (r, s)) ->
  0 <= r.
Proof.
  intros E. apply run_qrng_ok_cases in E.
  destruct E as (qc & q & cb & ci & m & _ & _ & Hint & _ & Hcase).
  destruct Hcase as [[_ (c & first & _ & _ & Hr)]|[_ [occ Hc]]].
  - eapply int_base2_nonneg. exact Hr.
  - assert (In (r, occ) (candidates (valid_counts_of n ci) m)) as Hin
      by (rewrite Hc; left; reflexivity).
    apply candidates_In in Hin. destruct Hin as [Hin _].
    rewrite (valid_counts_filter n _ Hint) in Hin.
    apply filter_In in Hin. destruct Hin as [Hin _].
    destruct (to_counts_int_keys _ Hint) as [_ Hpos]. apply Hpos.
    unfold keys. apply in_map_iff. exists (r, occ). tauto.
Qed.

(** When the run returns after a single job, the number returned is in
    [0, num_outcomes - 1], it was measured, and every other measured
    outcome in that range was counted strictly fewer times. *)
Theorem single_job_returns_the_most_frequent n shots j r s counts_int :
  run_qrng libm_log2 pm_run get_counts n shots = ([j], Ok (r, s)) ->
  first_counts_int libm_log2 pm_run get_counts n shots = Ok counts_int ->
  0 <= r < n
  /\ exists occurrence,
       In (r, occurrence) counts_int
       /\ forall outcome occurrence',
            In (outcome, occurrence') counts_int ->
            outcome < n -> outcome <> r -> occurrence' < occurrence.
Proof.
  intros E Hfirst. apply run_qrng_ok_cases in E.
  destruct E as (qc & q & cb & ci & m & Hbuild & Hget & Hint & Hmax & Hcase).
  unfold first_counts_int in Hfirst. rewrite Hbuild in Hfirst.
  cbn [bind fst] in Hfirst. rewrite Hget in Hfirst. cbn [bind] in Hfirst.
  rewrite Hint in Hfirst. injection Hfirst as <-.
  destruct Hcase as [[Hjobs _]|[_ [occ Hc]]]; [discriminate|].
  pose proof (valid_counts_filter n _ Hint) as Hvalid.
  assert (In (r, occ) (candidates (valid_counts_of n ci) m)) as Hin
    by (rewrite Hc; left; reflexivity).
  apply candidates_In in Hin. destruct Hin as [Hin ->].
  rewrite Hvalid in Hin. apply filter_In in Hin. destruct Hin as [Hin Hlt].
  simpl in Hlt. apply Z.ltb_lt in Hlt.
  destruct (to_counts_int_keys _ Hint) as [_ Hpos].
  split.
  - split; [|exact Hlt]. apply Hpos. unfold keys. apply in_map_iff.
    exists (r, m). tauto.
  - exists m. split; [exact Hin|]. intros k v Hk Hkn Hkr.
    assert (In (k, v) (valid_counts_of n ci)) as Hkv.
    { rewrite Hvalid. apply filter_In. split; [exact Hk|].
      simpl. apply Z.ltb_lt. exact Hkn. }
    destruct (py_max_spec _ Hmax) as [_ Hle].
    assert (v <= m) as Hvm.
    { apply Hle. unfold values. apply in_map_iff. exists (k, v). tauto. }
    destruct (Z.eq_dec v m) as [->|Hne]; [|lia].
    assert (In (k, m) (candidates (valid_counts_of n ci) m)) as Hkc
      by (apply candidates_In; tauto).
    rewrite Hc in Hkc. destruct Hkc as [Heq|[]]. congruence.
Qed.

(** Once an outcome below [num_outcomes] has been measured, neither [max]
    nor the list indexing can fail: the run returns after the first job,
    or it goes on to the tie-break job. *)
Theorem in_range_outcome_selected_or_tie_break
  n shots qc q counts_binary counts_int outcome occurrence :
  build_qrng libm_log2 n = Ok (qc, q) ->
  get_counts 0%nat (pm_run qc) shots = Ok counts_binary ->
  to_counts_int counts_binary = Ok counts_int ->
  In (outcome, occurrence) counts_int ->
  outcome < n ->
  (exists r,
     run_qrng libm_log2 pm_run get_counts n shots
     = ([(pm_run qc, shots)],
        Ok (r, std_norm_of binary64 (values counts_int))))
  \/ fst (run_qrng libm_log2 pm_run get_counts n shots)
     = [(pm_run qc, shots); (pm_run qc, 1)].
Proof.
  intros Hbuild Hget Hint Hin Hlt.
  assert (In (outcome, occurrence) (valid_counts_of n counts_int)) as Hv.
  { rewrite (valid_counts_filter n _ Hint). apply filter_In.
    split; [exact Hin|]. simpl. apply Z.ltb_lt. exact Hlt. }
  destruct (py_max (values (valid_counts_of n counts_int))) as [m|] eqn:Hmax.
  2:{ unfold py_max in Hmax.
      destruct (valid_counts_of n counts_int); [destruct Hv|discriminate]. }
  pose proof (py_max_candidates _ Hmax) as Hne.
  pose proof (max_indices_length (valid_counts_of n counts_int) m) as Hlen.
  destruct (candidates (valid_counts_of n counts_int) m)
    as [|[k v] [|item rest]] eqn:Hc; [congruence| |].
  - left. exists k. destruct (max_indices_single _ _ Hc) as [i [Hidx Hnth]].
    to_selection Hbuild Hget Hint. rewrite Hmax; cbn [and_then app].
    rewrite Hidx. cbn [length Nat.ltb Nat.leb index nth_error].
    cbn [and_then app]. unfold index. rewrite Hnth. reflexivity.
  - right. to_selection Hbuild Hget Hint. rewrite Hmax; cbn [and_then app].
    rewrite Hlen. cbn [length Nat.ltb Nat.leb].
    destruct (get_counts 1%nat (pm_run qc) 1) as [c|]; [|reflexivity].
    cbn [and_then app]. destruct (index (keys c) 0) as [first|];
      [|reflexivity].
    cbn [and_then app]. destruct (int_base2 first); reflexivity.
Qed.

(** After a tie the number returned is the first pattern of the one-shot
    counts read in base 2, so it is below 2 to the width of that pattern:
    below [2^num_qubits] when the backend answers with patterns as wide as
    the circuit. *)
Theorem tie_break_number_below_pattern_width
  n shots qc q j1 j2 r s first occurrence rest :
  run_qrng libm_log2 pm_run get_counts n shots = ([j1; j2], Ok (r, s)) ->
  build_qrng libm_log2 n = Ok (qc, q) ->
  get_counts 1%nat (pm_run qc) 1 = Ok ((first, occurrence) :: rest) ->
  r = big_endian_value first /\ 0 <= r < 2 ^ Z.of_nat (length first).
Proof.
  intros E Hbuild Hsingle. apply run_qrng_ok_cases in E.
  destruct E as (qc' & q' & cb & ci & m & Hbuild' & _ & _ & _ & Hcase).
  rewrite Hbuild in Hbuild'. injection Hbuild' as <- <-.
  destruct Hcase as [[_ (c & f & Hc & Hf & Hr)]|[Hjobs _]]; [|discriminate].
  rewrite Hsingle in Hc. injection Hc as <-.
  cbn [keys map fst index nth_error] in Hf. injection Hf as <-.
  assert (first <> []) as Hne by (intros ->; discriminate).
  rewrite (int_base2_big_endian Hne) in Hr. injection Hr as <-.
  split; [reflexivity|]. split.
  - apply big_endian_value_nonneg.
  - apply big_endian_value_lt.
Qed.

(** One shot, the default: the backend reports one pattern counted once.
    The spread is then 0.0, and the run returns that outcome if it is below
    [num_outcomes] and fails in [max] otherwise; no second job is run. *)
Theorem one_shot_run n shots qc q pattern :
  build_qrng libm_log2 n = Ok (qc, q) ->
  get_counts 0%nat (pm_run qc) shots = Ok [(pattern, 1)] ->
  pattern <> [] ->
  run_qrng libm_log2 pm_run get_counts n shots
  = ([(pm_run qc, shots)],
     if big_endian_value pattern <? n
     then Ok (big_endian_value pattern, 0%float)
     else Err (ValueError MaxEmptySequence)).
Proof.
  intros Hbuild Hget Hne.
  assert (to_counts_int [(pattern, 1)] = Ok [(big_endian_value pattern, 1)])
    as Hint.
  { unfold to_counts_int. cbn [int_items].
    rewrite (int_base2_big_endian Hne). reflexivity. }
  to_selection Hbuild Hget Hint.
  assert (std_norm_of binary64 (values [(big_endian_value pattern, 1)])
          = 0%float) as -> by (vm_compute; reflexivity).
  unfold valid_counts_of. cbn [filter fst].
  destruct (big_endian_value pattern <? n).
  - cbn [dict_of_items dict_update fold_left dict_set fst snd values keys map
         py_max and_then app].
    unfold max_indices_of, enumerate. cbn [length seq combine filter snd].
    rewrite Z.eqb_refl. reflexivity.
  - reflexivity.
Qed.
(** For a power of two [2^w] of outcomes and a backend whose tie-break
    patterns are [w] bits wide, whatever the run returns is in
    [0, num_outcomes - 1], after a tie as well. *)
Theorem power_of_two_outcomes_in_range n shots jobs r s qc q (w : nat) :
  run_qrng libm_log2 pm_run get_counts n shots = (jobs, Ok (r, s)) ->
  build_qrng libm_log2 n = Ok (qc, q) ->
  n = 2 ^ Z.of_nat w ->
  (forall count pattern,
     get_counts 1%nat (pm_run qc) 1 = Ok count ->
     In pattern (keys count) -> length pattern = w) ->
  0 <= r < n.
Proof.
  intros E Hbuild Hn Hwidth. apply run_qrng_ok_cases in E.
  destruct E as (qc' & q' & cb & ci & m & Hbuild' & _ & Hint & _ & Hcase).
  rewrite Hbuild in Hbuild'. injection Hbuild' as <- <-.
  destruct Hcase as [[_ (c & first & Hc & Hf & Hr)]|[_ [occ Hc]]].
  - assert (length first = w) as Hlen.
    { apply (Hwidth c first Hc). eapply index_In. exact Hf. }
    assert (first <> []) as Hne by (intros ->; discriminate).
    rewrite (int_base2_big_endian Hne) in Hr. injection Hr as <-.
    pose proof (big_endian_value_nonneg first).
    pose proof (big_endian_value_lt first) as Hlt. rewrite Hlen in Hlt. lia.
  - assert (In (r, occ) (candidates (valid_counts_of n ci) m)) as Hin
      by (rewrite Hc; left; reflexivity).
    apply candidates_In in Hin. destruct Hin as [Hin _].
    rewrite (valid_counts_filter n _ Hint) in Hin.
    apply filter_In in Hin. destruct Hin as [Hin Hlt].
    simpl in Hlt. apply Z.ltb_lt in Hlt.
    destruct (to_counts_int_keys _ Hint) as [_ Hpos]. split; [|exact Hlt].
    apply Hpos. unfold keys. apply in_map_iff. exists (r, occ). tauto.
Qed.
End RunnerReturns.

(** ** These properties on measured counts *)

Lemma nonpositive_outcomes_run_no_job_witness :
  run_qrng log2_chord pm_id (mock_counts counts_clear []) 0 100
  = ([], Err (ValueError MathDomain)).
Proof.
  apply (@nonpositive_outcomes_run_no_job log2_chord pm_id
           (mock_counts counts_clear []) 0 100).
  apply Z.le_refl.
Defined.

Lemma first_job_failure_is_final_witness :
  run_qrng log2_chord pm_id (fun _ _ _ => Err (BackendError 503)) 4 100
  = ([(pm_id (uniform_circuit 2), 100)], Err (BackendError 503)).
Proof.
  apply (@first_job_failure_is_final log2_chord pm_id
           (fun _ _ _ => Err (BackendError 503)) 4 100 (uniform_circuit 2) 2).
  - vm_compute. reflexivity.
  - reflexivity.
Defined.

Lemma returned_number_nonneg_witness :
  run_qrng log2_chord pm_id (mock_counts counts_tied counts_eleven) 3 2
  = ([(uniform_circuit 2, 2); (uniform_circuit 2, 1)], Ok (3, 0%float))
  /\ 0 <= 3.
Proof.
  split; [vm_compute; reflexivity|].
  apply (@returned_number_nonneg log2_chord pm_id
           (mock_counts counts_tied counts_eleven) 3 2
           [(uniform_circuit 2, 2); (uniform_circuit 2, 1)] 3 0%float).
  vm_compute. reflexivity.
Defined.

Lemma single_job_returns_the_most_frequent_witness :
  0 <= 0 < 4
  /\ exists occurrence,
       In (0, occurrence) [(0, 40); (1, 10); (2, 10); (3, 10)]
       /\ forall outcome occurrence',
            In (outcome, occurrence') [(0, 40); (1, 10); (2, 10); (3, 10)] ->
            outcome < 4 -> outcome <> 0 -> occurrence' < occurrence.
Proof.
  apply (@single_job_returns_the_most_frequent log2_chord pm_id
           (mock_counts counts_clear []) 4 100 (uniform_circuit 2, 100) 0
           (std_norm_of binary64 [40; 10; 10; 10])
           [(0, 40); (1, 10); (2, 10); (3, 10)]).
  - vm_compute. reflexivity.
  - vm_compute. reflexivity.
Defined.

Lemma in_range_outcome_selected_or_tie_break_witness :
  (exists r,
     run_qrng log2_chord pm_id (mock_counts counts_clear []) 4 100
     = ([(pm_id (uniform_circuit 2), 100)],
        Ok (r, std_norm_of binary64
                 (values [(0, 40); (1, 10); (2, 10); (3, 10)]))))
  \/ fst (run_qrng log2_chord pm_id (mock_counts counts_clear []) 4 100)
     = [(pm_id (uniform_circuit 2), 100); (pm_id (uniform_circuit 2), 1)].
Proof.
  apply (@in_range_outcome_selected_or_tie_break log2_chord pm_id
           (mock_counts counts_clear []) 4 100 (uniform_circuit 2) 2
           counts_clear [(0, 40); (1, 10); (2, 10); (3, 10)] 1 10).
  - vm_compute. reflexivity.
  - reflexivity.
  - vm_compute. reflexivity.
  - right. left. reflexivity.
  - reflexivity.
Defined.

Lemma tie_break_number_below_pattern_width_witness :
  3 = big_endian_value (bits 2 3)
  /\ 0 <= 3 < 2 ^ Z.of_nat (length (bits 2 3)).
Proof.
  apply (@tie_break_number_below_pattern_width log2_chord pm_id
           (mock_counts counts_tied counts_eleven) 3 2 (uniform_circuit 2) 2
           (uniform_circuit 2, 2) (uniform_circuit 2, 1) 3 0%float
           (bits 2 3) 1 []).
  - vm_compute. reflexivity.
  - vm_compute. reflexivity.
  - reflexivity.
Defined.

Lemma one_shot_run_witness :
  run_qrng log2_chord pm_id (mock_counts [(bits 2 1, 1)] []) 3 1
  = ([(pm_id (uniform_circuit 2), 1)],
     if big_endian_value (bits 2 1) <? 3
     then Ok (big_endian_value (bits 2 1), 0%float)
     else Err (ValueError MaxEmptySequence)).
Proof.
  apply (@one_shot_run log2_chord pm_id (mock_counts [(bits 2 1, 1)] []) 3 1
           (uniform_circuit 2) 2 (bits 2 1)).
  - vm_compute. reflexivity.
  - reflexivity.
  - discriminate.
Defined.

Lemma power_of_two_outcomes_in_range_witness :
  run_qrng log2_chord pm_id
    (mock_counts [(bits 2 0, 50); (bits 2 3, 50)] counts_eleven) 4 100
  = ([(uniform_circuit 2, 100); (uniform_circuit 2, 1)], Ok (3, 0%float))
  /\ 0 <= 3 < 4.
Proof.
  split; [vm_compute; reflexivity|].
  apply (@power_of_two_outcomes_in_range log2_chord pm_id
           (mock_counts [(bits 2 0, 50); (bits 2 3, 50)] counts_eleven) 4 100
           [(uniform_circuit 2, 100); (uniform_circuit 2, 1)] 3 0%float
           (uniform_circuit 2) 2 2).
  - vm_compute. reflexivity.
  - vm_compute. reflexivity.
  - reflexivity.
  - intros count pattern Hcount Hin. injection Hcount as <-.
    destruct Hin as [<-|[]]. reflexivity.
Defined.
